(** * PTD SOL viewer: the tokenizer, its timeout harness and the field extractor

    A shallow embedding of the core of [sol_viewer.py]:
    - [_parse_sol_content_threaded]: reads a file, cuts it to a byte cap,
      finds the runs of printable bytes with a regular expression and emits
      [("String", text)] and [("Byte", "0x..")] items, polling a stop event
      once per match;
    - [parse_sol_content_with_timeout]: runs the parser in a worker and waits
      on a queue for a bounded time;
    - the credential extraction loop of [main];
    - [clean_string], [truncate_text], [find_sol_files], the choice of a file
      at the start of [main] and its handling of mouse presses on the file
      list.

    Conventions of the embedding.
    - Python [bytes] are [list byte]; Python [str] is [string], i.e. code
      points below 256 (the tokenizer only ever produces code points below
      128, see [decode_printable]).
    - An item of the parsed content is the Python pair [(item_type, item_value)],
      kept as a pair of strings.
    - [stop_parsing_event.is_set()] is read through an oracle [stop k]: the
      value the worker observes at its [k]-th poll (other threads set and
      clear the event).
    - What [queue.get(timeout=...)] observes is an explicit argument. *)

From Stdlib Require Import ZArith NArith Lia.
From Stdlib.Strings Require Import Ascii String Byte.
From stdpp Require Import base list strings.
From Equations Require Import Equations.

Local Open Scope string_scope.
Local Open Scope list_scope.
Local Open Scope nat_scope.

(** ** Python values *)

Definition bytes := list byte.
Definition token : Type := string * string.

Record outcome := Outcome {
  parsed_data : list token;
  was_incomplete : bool;
  status_message : string
}.

(** Exceptions: a computation returns or raises with a message. *)
Inductive exc (A : Type) : Type :=
| Ret (a : A)
| Raise (msg : string).
Arguments Ret {A} a.
Arguments Raise {A} msg.

Definition token_eqb (a b : token) : bool :=
  String.eqb (fst a) (fst b) && String.eqb (snd a) (snd b).

(** ** The tokenizer *)

Module Tokenizer.

(** The character class [[ -~\t\n\r]] of [printable_chars_pattern]. *)
Definition printable (b : byte) : bool :=
  let n := Byte.to_N b in
  ((32 <=? n) && (n <=? 126) || (n =? 9) || (n =? 10) || (n =? 13))%N.

(** Greedy match of [[ -~\t\n\r]*] at the head of [l]: its length. *)
Fixpoint span_printable (l : bytes) : nat :=
  match l with
  | b :: l' => if printable b then S (span_printable l') else 0
  | [] => 0
  end.

(** [re.finditer(printable_chars_pattern, data)] as the list of
    [(match.start(), match.end())].  [pos] is the index of the head of [l];
    [skip] counts the bytes of [l] still inside the previous match.  At a free
    position the pattern [{2,}] matches greedily when at least two printable
    bytes start there; otherwise the search moves one byte on. *)
Fixpoint finditer_from (pos skip : nat) (l : bytes) : list (nat * nat) :=
  match l with
  | [] => []
  | _ :: l' =>
    match skip with
    | S k => finditer_from (S pos) k l'
    | O =>
      let n := span_printable l in
      if (2 <=? n)%nat then (pos, (pos + n)%nat) :: finditer_from (S pos) (n - 1)%nat l'
      else finditer_from (S pos) 0 l'
    end
  end.

Definition finditer (data : bytes) : list (nat * nat) := finditer_from 0 0 data.

(** [data[a:b]] for [0 <= a] and [0 <= b]. *)
Definition slice (data : bytes) (a b : nat) : bytes := take (b - a)%nat (drop a data).

(** [data[:n]] for any Python integer [n]; a negative [n] counts from the end. *)
Definition slice_to (data : bytes) (n : Z) : bytes :=
  if (0 <=? n)%Z then take (Z.to_nat n) data
  else take (length data - Z.to_nat (- n))%nat data.

Definition hex_digit (n : N) : ascii :=
  (if n <? 10 then ascii_of_N (48 + n) else ascii_of_N (87 + n))%N.

(** ["0x{:02x}".format(byte_val)] for a byte value. *)
Definition format_hex (b : byte) : string :=
  let n := Byte.to_N b in
  String "0" (String "x" (String (hex_digit (n / 16)) (String (hex_digit (n mod 16)) ""))).

Definition byte_item (b : byte) : token := ("Byte", format_hex b).

(** [bs.decode('utf-8', errors='ignore')].  A byte below 0x80 decodes to the
    code point of the same value.  A byte from 0x80 on is either dropped by
    [errors='ignore'] or part of a multi-byte sequence whose code point this
    8-bit [string] cannot hold; the pattern never matches such a byte
    ([decode_printable]), and the model drops it. *)
Fixpoint decode_utf8_ignore (bs : bytes) : string :=
  match bs with
  | [] => ""
  | b :: bs' =>
    if (Byte.to_N b <? 128)%N then String (ascii_of_byte b) (decode_utf8_ignore bs')
    else decode_utf8_ignore bs'
  end.

(** Truth value of a Python string: non-empty. *)
Definition truthy (s : string) : bool :=
  match s with "" => false | _ => true end.

Record scan_state := ScanState {
  final_parsed_data : list token;
  last_match_end : nat
}.

(** One iteration of the [for match in re.finditer(...)] body, after the poll. *)
Definition scan_step (data : bytes) (st : scan_state) (m : nat * nat) : scan_state :=
  let '(m_start, m_end) := m in
  let fpd := final_parsed_data st in
  let fpd :=
    if (last_match_end st <? m_start)%nat
    then fpd ++ map byte_item (slice data (last_match_end st) m_start)
    else fpd in
  let raw_string := decode_utf8_ignore (slice data m_start m_end) in
  let fpd := if truthy raw_string then fpd ++ [("String", raw_string)] else fpd in
  ScanState fpd m_end.

(** The loop over the matches.  [k] numbers the polls of the stop event.
    [inr o]: the loop returned early after putting [o] on the queue;
    [inl st]: the loop ran out of matches. *)
Fixpoint scan_loop (data : bytes) (stop : nat -> bool) (k : nat)
    (ms : list (nat * nat)) (st : scan_state) : scan_state + outcome :=
  match ms with
  | [] => inl st
  | m :: ms' =>
    if stop k then inr (Outcome (final_parsed_data st) true "Interrupted")
    else scan_loop data stop (S k) ms' (scan_step data st m)
  end.

(** The body of the [try] once the file has been read. *)
Definition scan (data : bytes) (max_bytes_to_process : Z) (stop : nat -> bool) : outcome :=
  let data_to_process := slice_to data max_bytes_to_process in
  match scan_loop data_to_process stop 0 (finditer data_to_process) (ScanState [] 0) with
  | inr o => o
  | inl st =>
    let fpd := final_parsed_data st in
    let fpd :=
      if (last_match_end st <? length data_to_process)%nat
      then fpd ++ map byte_item (drop (last_match_end st) data_to_process)
      else fpd in
    Outcome fpd false "Complete"
  end.

Definition default_max_bytes : Z := 1024 * 100.

(** [_parse_sol_content_threaded(file_path, result_queue, max_bytes_to_process)].
    [fs] is the file system: what [open(file_path, 'rb')] followed by
    [f.read()] gives, the content or the exception raised.  The result is what
    the call leaves on [result_queue], or the exception escaping it. *)
Definition try_body (fs : string -> exc bytes) (file_path : string)
    (stop : nat -> bool) (max_bytes_to_process : Z) : exc (list outcome) :=
  match fs file_path with
  | Raise e => Raise e
  | Ret data => Ret [scan data max_bytes_to_process stop]
  end.

Definition _parse_sol_content_threaded (fs : string -> exc bytes) (file_path : string)
    (stop : nat -> bool) (max_bytes_to_process : Z) : exc (list outcome) :=
  match try_body fs file_path stop max_bytes_to_process with
  | Ret q => Ret q
  | Raise e => Ret [Outcome [("Error", "Error parsing: " +:+ e)] true "Error"]
  end.

End Tokenizer.

Import Tokenizer.

(** ** The timeout harness *)

Module Harness.

(** What [q.get(timeout=timeout)] observes: the worker's item arrived in time,
    the timeout elapsed first ([queue.Empty]), or the call raised something
    else (a negative [timeout] makes [get] raise [ValueError]). *)
Inductive wait : Type :=
| Delivered
| Elapsed
| Failed (e : string).

(** The value returned, and whether the call sets [stop_parsing_event] (which
    it clears on entry) before it returns. *)
Record call_result := CallResult {
  returned : outcome;
  sets_stop_event : bool
}.

Definition timed_out (timeout_repr : string) : outcome :=
  Outcome [("Error", "Parsing timed out after " +:+ timeout_repr
                     +:+ "s. Content may be too large or complex.")]
          true "Timed Out".

(** [parse_sol_content_with_timeout(file_path, timeout, max_bytes_to_process)].
    [timeout_repr] is the text the f-string renders for [timeout] (["5.0"] for
    the default); [stop] is what the worker reads from the event, [w] what the
    caller's [get] observes. *)
Definition parse_sol_content_with_timeout (fs : string -> exc bytes)
    (file_path : string) (timeout_repr : string) (max_bytes_to_process : Z)
    (stop : nat -> bool) (w : wait) : call_result :=
  let q :=
    match _parse_sol_content_threaded fs file_path stop max_bytes_to_process with
    | Ret q => q
    | Raise _ => []
    end in
  match w, q with
  | Delivered, item :: _ => CallResult item false
  | Delivered, [] | Elapsed, _ => CallResult (timed_out timeout_repr) true
  | Failed e, _ => CallResult (Outcome [("Error", "Unexpected error: " +:+ e)] true "Error") true
  end.

End Harness.

(** ** The field extractor *)

Module Extractor.

(** [str.isspace] on the code points below 256. *)
Definition is_space (c : ascii) : bool :=
  let n := N_of_ascii c in
  ((9 <=? n) && (n <=? 13) || (28 <=? n) && (n <=? 32) || (n =? 133) || (n =? 160))%N.

(** The class [\w] of a [str] pattern on the code points below 256:
    [[A-Za-z0-9_]] and the alphanumerics of Latin-1. *)
Definition is_word (c : ascii) : bool :=
  let n := N_of_ascii c in
  ((48 <=? n) && (n <=? 57) || (65 <=? n) && (n <=? 90) || (n =? 95)
   || (97 <=? n) && (n <=? 122)
   || (n =? 170) || (n =? 178) || (n =? 179) || (n =? 181) || (n =? 185) || (n =? 186)
   || (188 <=? n) && (n <=? 190)
   || (192 <=? n) && (n <=? 214) || (216 <=? n) && (n <=? 246) || (248 <=? n))%N.

(** [s.replace('\x00', '')] *)
Fixpoint remove_nul (s : string) : string :=
  match s with
  | "" => ""
  | String c s' => if (N_of_ascii c =? 0)%N then remove_nul s' else String c (remove_nul s')
  end.

Fixpoint lstrip (s : string) : string :=
  match s with
  | "" => ""
  | String c s' => if is_space c then lstrip s' else s
  end.

Fixpoint rstrip (s : string) : string :=
  match s with
  | "" => ""
  | String c s' =>
    let r := rstrip s' in
    if is_space c && negb (truthy r) then "" else String c r
  end.

(** [s.strip()] *)
Definition strip (s : string) : string := rstrip (lstrip s).

(** [clean_string(s)] on a [str] argument (the [bytes] branch is not taken:
    item values are [str]). *)
Definition clean_string (s : string) : string := strip (remove_nul s).

(** [re.sub(r'^\W+', '', s)]: without [re.MULTILINE] the anchor only matches
    at index 0, so only a leading run of non-word characters goes. *)
Fixpoint sub_leading_nonword (s : string) : string :=
  match s with
  | "" => ""
  | String c s' => if is_word c then s else sub_leading_nonword s'
  end.

(** [ch in s] for a one-character [ch]. *)
Fixpoint contains (ch : ascii) (s : string) : bool :=
  match s with
  | "" => false
  | String c s' => Ascii.eqb c ch || contains ch s'
  end.

(** [content[i]]; every use below is guarded by a bound check on [i]. *)
Definition item (content : list token) (i : nat) : token :=
  content !!! i.

(** The body of [for i in range(len(content))] in [main]. *)
Definition extract_step (content : list token) (st : string * string) (i : nat)
    : string * string :=
  let '(extracted_email, extracted_password) := st in
  let '(item_type, item_value) := item content i in
  let extracted_password :=
    if String.eqb item_type "String" && String.eqb item_value "Password" then
      if (i + 3 <? length content)
         && token_eqb (item content (i + 1)) ("Byte", "0x06")
         && String.eqb (fst (item content (i + 2))) "String"
         && token_eqb (item content (i + 3)) ("Byte", "0x00")
      then sub_leading_nonword (clean_string (snd (item content (i + 2))))
      else if (i + 4 <? length content)
         && token_eqb (item content (i + 1)) ("Byte", "0x06")
         && String.eqb (fst (item content (i + 2))) "Byte"
         && String.eqb (fst (item content (i + 3))) "String"
         && token_eqb (item content (i + 4)) ("Byte", "0x00")
      then sub_leading_nonword (clean_string (snd (item content (i + 3))))
      else extracted_password
    else extracted_password in
  let extracted_email :=
    if String.eqb item_type "String" && String.eqb item_value "Email" then
      if (i + 3 <? length content)
         && token_eqb (item content (i + 1)) ("Byte", "0x06")
         && String.eqb (fst (item content (i + 2))) "String"
         && token_eqb (item content (i + 3)) ("Byte", "0x00")
      then
        let potential_email := sub_leading_nonword (clean_string (snd (item content (i + 2)))) in
        if contains "@" potential_email && contains "." potential_email
        then potential_email else extracted_email
      else if (i + 4 <? length content)
         && token_eqb (item content (i + 1)) ("Byte", "0x06")
         && String.eqb (fst (item content (i + 2))) "Byte"
         && String.eqb (fst (item content (i + 3))) "String"
         && token_eqb (item content (i + 4)) ("Byte", "0x00")
      then
        let potential_email := sub_leading_nonword (clean_string (snd (item content (i + 3)))) in
        if contains "@" potential_email && contains "." potential_email
        then potential_email else extracted_email
      else extracted_email
    else extracted_email in
  (extracted_email, extracted_password).

(** The extraction of one frame of [main], run when a file is selected: both
    fields start at the sentinel and the loop runs over every index of the
    content. *)
Definition extract_from (content : list token) (idxs : list nat) (st : string * string)
    : string * string :=
  fold_left (extract_step content) idxs st.

Definition extract_fields (content : list token) : string * string :=
  extract_from content (seq 0 (length content)) ("Not found", "Not found").

Definition extracted_email (content : list token) : string := fst (extract_fields content).
Definition extracted_password (content : list token) : string := snd (extract_fields content).

End Extractor.

Import Harness Extractor.


(** ** Fitting a label into a width *)

Module Display.

Fixpoint str_take (n : nat) (s : string) : string :=
  match n, s with
  | S n', String c s' => String c (str_take n' s')
  | _, _ => ""
  end.

(** [text[:n]] for any Python integer [n]; a negative [n] counts from the end. *)
Definition str_slice_to (text : string) (n : Z) : string :=
  if (0 <=? n)%Z then str_take (Z.to_nat n) text
  else str_take (String.length text - Z.to_nat (- n)) text.

Section Truncate.

(** [width s] is [font.size(s)[0]], the width in pixels the font gives [s]. *)
Variable width : string -> Z.
Variable text : string.
Variable max_width : Z.

(** The [while left <= right] loop of [truncate_text]: a binary search for a
    prefix length.  ([left] and [right] are constructors here, hence the
    underscores.) *)
Equations? truncate_loop (left_ right_ : Z) (best_text : string) : string
  by wf (Z.to_nat (right_ - left_ + 1)) lt :=
  truncate_loop left_ right_ best_text with Z_le_gt_dec left_ right_ := {
    | left _ =>
        let mid := ((left_ + right_) / 2)%Z in
        let test_text := str_slice_to text mid +:+ "..." in
        if (width test_text <=? max_width)%Z
        then truncate_loop (mid + 1)%Z right_ test_text
        else truncate_loop left_ (mid - 1)%Z best_text
    | right _ => best_text }.
Proof.
  all: assert (left_ <= (left_ + right_) / 2 <= right_)%Z
         by (split; [apply Z.div_le_lower_bound|apply Z.div_le_upper_bound]; lia); lia.
Qed.

(** [truncate_text(text, max_width, font)] *)
Definition truncate_text : string :=
  if (width text <=? max_width)%Z then text
  else
    let best_text := truncate_loop 0 (Z.of_nat (String.length text)) "" in
    if truthy best_text then best_text else "...".

End Truncate.

End Display.

Import Display.

(** The text tried for a prefix of [k] characters. *)
Definition probe (text : string) (k : nat) : string := str_take k text +:+ "...".

(** What the loop holds in [best_text]: nothing yet, or a probe that fits. *)
Definition fitting_probe (width : string -> Z) (text : string) (max_width : Z)
    (best : string) : Prop :=
  best = ""
  \/ exists k, k <= String.length text /\ best = probe text k /\ (width best <= max_width)%Z.

(** What the loop keeps when the widths of the probes grow with the prefix:
    every prefix length below [left] fits, none above [right] does, and
    [best_text] is the probe at [left - 1]. *)
Definition search_invariant (width : string -> Z) (text : string) (max_width : Z)
    (l r : Z) (best : string) : Prop :=
  (0 <= l)%Z /\ (r <= Z.of_nat (String.length text))%Z /\ (l <= r + 1)%Z
  /\ (forall j, (Z.of_nat j < l)%Z -> (width (probe text j) <= max_width)%Z)
  /\ (forall j, (r < Z.of_nat j)%Z -> j <= String.length text ->
                (max_width < width (probe text j))%Z)
  /\ (l = 0%Z /\ best = "" \/ (0 < l)%Z /\ best = probe text (Z.to_nat (l - 1))).

Definition search_result (width : string -> Z) (text : string) (max_width : Z)
    (res : string) : Prop :=
  exists k : nat,
    k <= S (String.length text)
    /\ (forall j, j < k -> (width (probe text j) <= max_width)%Z)
    /\ (forall j, k <= j -> j <= String.length text -> (max_width < width (probe text j))%Z)
    /\ (k = 0 /\ res = "" \/ 0 < k /\ res = probe text (k - 1)).

(** A font in which every character is seven pixels wide. *)
Definition seven_wide (s : string) : Z := 7 * Z.of_nat (String.length s).

(** ** Finding the files and choosing one at start-up *)

Module Files.

(** [s.startswith(p)] *)
Fixpoint startswith (p s : string) : bool :=
  match p, s with
  | "", _ => true
  | String a p', String b s' => Ascii.eqb a b && startswith p' s'
  | String _ _, "" => false
  end.

(** [s.endswith(suffix)] *)
Fixpoint endswith (suffix s : string) : bool :=
  String.eqb s suffix
  || match s with
     | "" => false
     | String _ s' => endswith suffix s'
     end.

(** [p in s] for strings *)
Fixpoint str_in (p s : string) : bool :=
  startswith p s
  || match s with
     | "" => false
     | String _ s' => str_in p s'
     end.

(** [str.lower] on the code points below 256: the letters A-Z and the
    capital letters of Latin-1 move up by 32. *)
Definition lower_char (c : ascii) : ascii :=
  let n := N_of_ascii c in
  (if (65 <=? n) && (n <=? 90) || (192 <=? n) && (n <=? 222) && negb (n =? 215)
   then ascii_of_N (n + 32) else c)%N.

Fixpoint lower (s : string) : string :=
  match s with
  | "" => ""
  | String c s' => String (lower_char c) (lower s')
  end.

Section FileSystem.

(** The file system as [find_sol_files] and [main] see it: [os.path.exists],
    the [(root, files)] pairs [os.walk] yields in order (the directory names
    are not used), and [os.path.join]. *)
Variable exists_ : string -> bool.
Variable walk : string -> list (string * list string).
Variable join : string -> string -> string.

(** The test on a file name inside the loops of [find_sol_files]. *)
Definition name_matches (file : string) : bool :=
  endswith ".sol" file && str_in "ptd" (lower file).

(** [find_sol_files(base_paths)] *)
Definition find_in_files (root : string) (files : list string) : list (string * string) :=
  flat_map (fun file => if name_matches file then [(join root file, file)] else []) files.

Definition find_in_base (base_path : string) : list (string * string) :=
  if negb (exists_ base_path) then []
  else flat_map (fun rf => find_in_files (fst rf) (snd rf)) (walk base_path).

Definition find_sol_files (base_paths : list string) : list (string * string) :=
  flat_map find_in_base base_paths.

(** The start of [main] up to the event loop, for the file list: the list
    found, the file "sol" of the current directory put in front when it
    exists and is not listed, and the automatic selection of a first entry
    named "sol".  [parsed] is the path handed to
    [parse_sol_content_with_timeout], if any. *)
Record startup_state := StartupState {
  all_sol_files : list (string * string);
  selected_file_index : Z;
  parsed : option string
}.

Definition startup (sol_base_paths : list string) (explicit_sol_file_path : string)
    : startup_state :=
  let all_sol_files := find_sol_files sol_base_paths in
  let all_sol_files :=
    if exists_ explicit_sol_file_path
       && negb (existsb (token_eqb (explicit_sol_file_path, "sol")) all_sol_files)
    then (explicit_sol_file_path, "sol") :: all_sol_files
    else all_sol_files in
  match all_sol_files with
  | (selected_file_path, name) :: _ =>
    if String.eqb name "sol"
    then StartupState all_sol_files 0 (Some selected_file_path)
    else StartupState all_sol_files (-1) None
  | [] => StartupState all_sol_files (-1) None
  end.

End FileSystem.

End Files.

Import Files.

(** ** Mouse presses on the file list *)

Module Viewer.

Definition SCREEN_HEIGHT : Z := 400.
Definition FILE_LIST_WIDTH : Z := 200.
Definition PADDING : Z := 15.
Definition FONT_SIZE : Z := 18.
Definition LINE_HEIGHT : Z := FONT_SIZE + 8.

(** The part of the state of [main] a mouse press on the file list touches.
    [parse_requests] lists the indices whose file was handed to
    [parse_sol_content_with_timeout], latest first.  The scroll offset is an
    integer here: it is one until the scroll bar is dragged. *)
Record view_state := ViewState {
  selected_index : Z;
  file_list_scroll_offset : Z;
  file_list_scrolling : bool;
  last_mouse_y : Z;
  parse_requests : list Z
}.

(** The [pygame.MOUSEBUTTONDOWN] branch of the event loop, for a list of
    [n_files] files and a press of [button] at [(x, y)].  [on_thumb] is the
    outcome of the hit test on the thumb of the scroll bar, which the source
    computes in floating point; it is only consulted when the list is higher
    than the view.  (The two copy buttons also see the event; they keep their
    own state.) *)
Definition mouse_button_down (n_files : Z) (on_thumb : bool) (x y button : Z)
    (st : view_state) : view_state :=
  let st :=
    if (0 <=? x)%Z && (x <=? FILE_LIST_WIDTH)%Z
       && (PADDING <=? y)%Z && (y <=? SCREEN_HEIGHT - PADDING)%Z
    then
      let file_list_view_height := (SCREEN_HEIGHT - 2 * PADDING)%Z in
      let total_file_height := (n_files * LINE_HEIGHT)%Z in
      if (file_list_view_height <? total_file_height)%Z then
        if on_thumb then
          ViewState (selected_index st) (file_list_scroll_offset st) true y
                    (parse_requests st)
        else if (button =? 1)%Z then
          let clicked_index :=
            ((y - PADDING + file_list_scroll_offset st) / LINE_HEIGHT)%Z in
          if (0 <=? clicked_index)%Z && (clicked_index <? n_files)%Z then
            if negb (selected_index st =? clicked_index)%Z then
              ViewState clicked_index (file_list_scroll_offset st)
                        (file_list_scrolling st) (last_mouse_y st)
                        (clicked_index :: parse_requests st)
            else st
          else st
        else st
      else st
    else st in
  if (button =? 4)%Z then
    if (0 <=? x)%Z && (x <=? FILE_LIST_WIDTH)%Z then
      ViewState (selected_index st)
                (Z.max 0 (file_list_scroll_offset st - LINE_HEIGHT * 3))
                (file_list_scrolling st) (last_mouse_y st) (parse_requests st)
    else st
  else if (button =? 5)%Z then
    if (0 <=? x)%Z && (x <=? FILE_LIST_WIDTH)%Z then
      let max_file_scroll :=
        Z.max 0 (n_files * LINE_HEIGHT - (SCREEN_HEIGHT - 2 * PADDING)) in
      ViewState (selected_index st)
                (Z.min max_file_scroll (file_list_scroll_offset st + LINE_HEIGHT * 3))
                (file_list_scrolling st) (last_mouse_y st) (parse_requests st)
    else st
  else st.

(** A mouse press as the event loop receives it. *)
Record press := Press {
  press_on_thumb : bool;
  press_x : Z;
  press_y : Z;
  press_button : Z
}.

Definition presses (n_files : Z) (ps : list press) (st : view_state) : view_state :=
  fold_left
    (fun st p =>
       mouse_button_down n_files (press_on_thumb p) (press_x p) (press_y p) (press_button p) st)
    ps st.

End Viewer.

Import Viewer.

(** The selection is none ([-1]) or an index of the list, and so is every
    index whose file was parsed. *)
Definition selection_valid (n_files : Z) (st : view_state) : Prop :=
  (selected_index st = -1 \/ 0 <= selected_index st < n_files)%Z
  /\ Forall (fun i => 0 <= i < n_files)%Z (parse_requests st).

(** The scroll offset lies between 0 and the largest useful offset. *)
Definition scroll_in_range (n_files : Z) (st : view_state) : Prop :=
  (0 <= file_list_scroll_offset st
   <= Z.max 0 (n_files * LINE_HEIGHT - (SCREEN_HEIGHT - 2 * PADDING)))%Z.

(** A file system with two directories under one base path. *)
Definition ex_walk (base : string) : list (string * list string) :=
  if String.eqb base "/home/u/.macromedia/Flash_Player/" then
    [("/home/u/.macromedia/Flash_Player/a", ["PTD1.sol"; "notes.txt"; "sol"]);
     ("/home/u/.macromedia/Flash_Player/b", ["other.sol"; "my_ptd_save.SOL"; "xptdx.sol"])]
  else [].

Definition ex_exists (p : string) : bool :=
  String.eqb p "/home/u/.macromedia/Flash_Player/" || String.eqb p "/work/sol".

Definition ex_join (a b : string) : string := a +:+ "/" +:+ b.

(** ** Notions the properties are stated with *)

(** The stop event is never set. *)
Definition never : nat -> bool := fun _ => false.

(** Number of input bytes an item stands for: the length of the text of a
    ["String"] item, one for a ["Byte"] item. *)
Definition item_bytes (t : token) : nat :=
  if String.eqb (fst t) "String" then String.length (snd t)
  else if String.eqb (fst t) "Byte" then 1 else 0.

Definition covered_bytes (ts : list token) : nat := sum_list (map item_bytes ts).

(** The two-state scanner (outside a run, inside a run) the specification
    describes in place of the regular expression: [cur] is the printable run
    read so far.  It follows the specification's words, not the source;
    [scan_never] proves that the source's loop computes it. *)
Definition flush (cur : bytes) : list token :=
  match cur with
  | [] => []
  | [b] => [byte_item b]
  | _ => [("String", string_of_list_byte cur)]
  end.

Fixpoint scanner (cur : bytes) (l : bytes) : list token :=
  match l with
  | [] => flush cur
  | b :: l' =>
    if printable b then scanner (cur ++ [b]) l'
    else flush cur ++ byte_item b :: scanner [] l'
  end.

Definition tokens_spec (l : bytes) : list token := scanner [] l.

(** A printable run is maximal when no printable byte touches it. *)
Definition ends_outside_run (pre : bytes) : bool :=
  match last pre with Some b => negb (printable b) | None => true end.

Definition starts_outside_run (post : bytes) : bool :=
  match post with b :: _ => negb (printable b) | [] => true end.

(** Shape of the items. *)
Definition is_lower_hex (c : ascii) : bool :=
  let n := N_of_ascii c in
  ((48 <=? n) && (n <=? 57) || (97 <=? n) && (n <=? 102))%N.

Definition printable_char (c : ascii) : bool :=
  let n := N_of_ascii c in
  ((32 <=? n) && (n <=? 126) || (n =? 9) || (n =? 10) || (n =? 13))%N.

Fixpoint all_chars (p : ascii -> bool) (s : string) : bool :=
  match s with
  | "" => true
  | String c s' => p c && all_chars p s'
  end.

Definition well_formed (t : token) : bool :=
  if String.eqb (fst t) "Byte" then
    match snd t with
    | String z (String x (String h (String l ""))) =>
      Ascii.eqb z "0" && Ascii.eqb x "x" && is_lower_hex h && is_lower_hex l
    | _ => false
    end
  else if String.eqb (fst t) "String" then
    (2 <=? String.length (snd t)) && all_chars printable_char (snd t)
  else false.

(** The motifs of the extractor, read off the list from index [i] on: a
    ["String"] item holding the label, then [Byte 0x06, String v, Byte 0x00]
    or [Byte 0x06, Byte _, String v, Byte 0x00].  The result is [v].  It
    follows the specification's words, not the source; [extract_step_spec]
    proves that the body of the source's loop decides the same motifs. *)
Definition motif_value (label : string) (content : list token) (i : nat) : option string :=
  match drop i content with
  | lab :: m :: rest =>
    if token_eqb lab ("String", label) && token_eqb m ("Byte", "0x06") then
      match rest with
      | v :: z :: rest' =>
        if String.eqb (fst v) "String" && token_eqb z ("Byte", "0x00") then Some (snd v)
        else
          match rest' with
          | z' :: _ =>
            if String.eqb (fst v) "Byte" && String.eqb (fst z) "String"
               && token_eqb z' ("Byte", "0x00")
            then Some (snd z) else None
          | [] => None
          end
      | _ => None
      end
    else None
  | _ => None
  end.

(** The cleaned value of a structural match. *)
Definition candidate (label : string) (content : list token) (i : nat) : option string :=
  option_map (fun v => sub_leading_nonword (clean_string v)) (motif_value label content i).

Definition valid_email (s : string) : bool := contains "@" s && contains "." s.

(** The candidate at [i] when it passes the check on emails. *)
Definition accepted_email (content : list token) (i : nat) : option string :=
  match candidate "Email" content i with
  | Some c => if valid_email c then Some c else None
  | None => None
  end.

(** Keep the last value a partial function gives along a list of indices. *)
Definition keep_last (f : nat -> option string) (idxs : list nat) (d : string) : string :=
  fold_left (fun acc i => match f i with Some c => c | None => acc end) idxs d.

(** A small buffer: a run, three loose bytes (one of them printable), a run, a byte. *)
Definition ex_data : bytes :=
  list_byte_of_string "Hi" ++ [x00; x41; x06] ++ list_byte_of_string "Email" ++ [xff].

(** The stop event is set after the first poll. *)
Definition stop_after_first (k : nat) : bool := 1 <=? k.

(** A second buffer that agrees with [ex_data] on four bytes only. *)
Definition ex_data_other_tail : bytes := take 4 ex_data ++ [x7a; x7a; x00].

(** A buffer that ends with a Password motif with one filler byte. *)
Definition ex_password_file : bytes :=
  [x00; x01] ++ list_byte_of_string "Password" ++ [x06] ++ [x03]
    ++ list_byte_of_string " hunter2" ++ [x00].

(** Two complete Password motifs in a row. *)
Definition two_passwords : list token :=
  [("String", "Password"); ("Byte", "0x06"); ("String", "first"); ("Byte", "0x00");
   ("String", "Password"); ("Byte", "0x06"); ("String", "second"); ("Byte", "0x00")].

(** An Email motif that fails the check, then one that passes. *)
Definition two_emails : list token :=
  [("String", "Email"); ("Byte", "0x06"); ("String", "not-an-email"); ("Byte", "0x00");
   ("String", "Email"); ("Byte", "0x06"); ("Byte", "0x01"); ("String", " x@y.z"); ("Byte", "0x00")].

(** A file system with one readable file and one that cannot be opened. *)
Definition ex_fs (file_path : string) : exc bytes :=
  if String.eqb file_path "sol" then Ret ex_data
  else Raise "[Errno 2] No such file or directory".

(** ** Further notions for the tokenizer *)

(** Value of a lowercase hexadecimal digit. *)
Definition hex_value (c : ascii) : N :=
  let n := N_of_ascii c in
  (if n <? 58 then n - 48 else n - 87)%N.

(** The input bytes an item stands for: the bytes of the text of a
    ["String"] item, the byte a ["Byte"] item names in hexadecimal. *)
Definition item_to_bytes (t : token) : bytes :=
  if String.eqb (fst t) "String" then list_byte_of_string (snd t)
  else if String.eqb (fst t) "Byte" then
    match snd t with
    | String _ (String _ (String h (String l ""))) =>
      match Byte.of_N (16 * hex_value h + hex_value l) with
      | Some b => [b]
      | None => []
      end
    | _ => []
    end
  else [].

Definition untokenize (ts : list token) : bytes := concat (map item_to_bytes ts).

Definition is_string_item (t : token) : bool := String.eqb (fst t) "String".

(** No two ["String"] items stand next to each other. *)
Fixpoint no_adjacent_strings (ts : list token) : bool :=
  match ts with
  | t1 :: ((t2 :: _) as rest) =>
    negb (is_string_item t1 && is_string_item t2) && no_adjacent_strings rest
  | _ => true
  end.

(** No two printable bytes stand next to each other. *)
Fixpoint no_double_printable (l : bytes) : bool :=
  match l with
  | a :: ((b :: _) as rest) => negb (printable a && printable b) && no_double_printable rest
  | _ => true
  end.

(** A match of the pattern inside [data]: at least two bytes, all printable. *)
Definition valid_match (data : bytes) (m : nat * nat) : Prop :=
  fst m + 2 <= snd m /\ snd m <= length data
  /\ Forall (fun b => printable b = true) (slice data (fst m) (snd m)).

(** ** Further notions for strings and outcomes *)

Definition first_char (s : string) : option ascii :=
  match s with "" => None | String c _ => Some c end.

Fixpoint last_char (s : string) : option ascii :=
  match s with
  | "" => None
  | String c s' => match last_char s' with Some d => Some d | None => Some c end
  end.

(** The character NUL does not occur. *)
Definition nul_free (s : string) : bool := negb (contains Ascii.zero s).

(** Neither the first nor the last character is white space. *)
Definition stripped (s : string) : bool :=
  match first_char s with Some c => negb (is_space c) | None => true end
  && match last_char s with Some c => negb (is_space c) | None => true end.

(** Empty, or starting with a word character. *)
Definition starts_with_word (s : string) : bool :=
  match first_char s with Some c => is_word c | None => true end.

(** The four kinds of outcome a caller of the harness can see. *)
Definition parsed_outcome (o : outcome) : Prop :=
  (status_message o = "Complete" /\ was_incomplete o = false
   \/ status_message o = "Interrupted" /\ was_incomplete o = true)
  /\ Forall (fun t => well_formed t = true) (parsed_data o).

Definition failed_outcome (o : outcome) : Prop :=
  (status_message o = "Error" \/ status_message o = "Timed Out")
  /\ was_incomplete o = true
  /\ exists msg, parsed_data o = [("Error", msg)].

(** ** Examples *)

Example scan_ex_data :
  scan ex_data default_max_bytes never =
  Outcome [("String", "Hi"); ("Byte", "0x00"); ("Byte", "0x41"); ("Byte", "0x06");
           ("String", "Email"); ("Byte", "0xff")] false "Complete".
Proof. vm_compute. reflexivity. Qed.

Example default_max_bytes_value : default_max_bytes = 102400%Z.
Proof. reflexivity. Qed.

Example scan_truncated :
  scan ex_data 4 never =
  Outcome [("String", "Hi"); ("Byte", "0x00"); ("Byte", "0x41")] false "Complete".
Proof. vm_compute. reflexivity. Qed.

Example scan_interrupted :
  scan ex_data default_max_bytes stop_after_first =
  Outcome [("String", "Hi")] true "Interrupted".
Proof. vm_compute. reflexivity. Qed.

Example scan_single_printable :
  scan [x41] default_max_bytes never = Outcome [("Byte", "0x41")] false "Complete".
Proof. vm_compute. reflexivity. Qed.

Example harness_delivered :
  returned (parse_sol_content_with_timeout ex_fs "sol" "5.0" 2 never Delivered)
  = Outcome [("String", "Hi")] false "Complete".
Proof. vm_compute. reflexivity. Qed.

Example truncate_hello :
  truncate_text seven_wide "hello world" 60 = "hello...".
Proof. vm_compute. reflexivity. Qed.

Example truncate_fits :
  truncate_text seven_wide "hello" 60 = "hello".
Proof. vm_compute. reflexivity. Qed.

Example truncate_nothing_fits :
  truncate_text seven_wide "hello world" 10 = "...".
Proof. vm_compute. reflexivity. Qed.

Example find_sol_files_ex :
  find_sol_files ex_exists ex_walk ex_join ["/none"; "/home/u/.macromedia/Flash_Player/"]
  = [("/home/u/.macromedia/Flash_Player/a/PTD1.sol", "PTD1.sol");
     ("/home/u/.macromedia/Flash_Player/b/xptdx.sol", "xptdx.sol")].
Proof. vm_compute. reflexivity. Qed.

Example click_selects_with_fifteen_files :
  selected_index
    (mouse_button_down 15 false 50 70 1 (ViewState (-1) 0 false 0 [])) = 2%Z.
Proof. vm_compute. reflexivity. Qed.

Example password_file_ex :
  extracted_password (parsed_data (scan ex_password_file default_max_bytes never))
  = "hunter2".
Proof. vm_compute. reflexivity. Qed.

Example extract_3 :
  extract_fields [("String", "Email"); ("Byte", "0x06"); ("String", "  a@b.com"); ("Byte", "0x00")]
  = ("a@b.com", "Not found").
Proof. vm_compute. reflexivity. Qed.

Example extract_reject :
  extract_fields [("String", "Email"); ("Byte", "0x06"); ("String", "not-an-email"); ("Byte", "0x00")]
  = ("Not found", "Not found").
Proof. vm_compute. reflexivity. Qed.

Example extract_4 :
  extract_fields [("String", "Password"); ("Byte", "0x06"); ("Byte", "0xff");
                  ("String", "sEcr3t!"); ("Byte", "0x00")]
  = ("Not found", "sEcr3t!").
Proof. vm_compute. reflexivity. Qed.

Example extract_two_passwords :
  extract_fields [("String", "Password"); ("Byte", "0x06"); ("String", "first"); ("Byte", "0x00");
                  ("String", "Password"); ("Byte", "0x06"); ("String", "second"); ("Byte", "0x00")]
  = ("Not found", "second").
Proof. vm_compute. reflexivity. Qed.

(** ** Bytes, characters and the decoder *)

Section Decode.

Lemma printable_ascii (b : byte) : printable b = true -> (Byte.to_N b <? 128)%N = true.
Proof. destruct b; vm_compute; congruence. Qed.

Lemma printable_char_of_byte (b : byte) :
  printable b = true -> printable_char (ascii_of_byte b) = true.
Proof. destruct b; vm_compute; congruence. Qed.

(** On a printable run the codec keeps every byte: the text is the run. *)
Lemma decode_printable (l : bytes) :
  Forall (fun b => printable b = true) l ->
  decode_utf8_ignore l = string_of_list_byte l.
Proof.
  induction 1 as [|b l Hb _ IH]; [reflexivity|].
  cbn [decode_utf8_ignore]. rewrite (printable_ascii b Hb), IH. reflexivity.
Qed.

Lemma length_string_of_list_byte (l : bytes) :
  String.length (string_of_list_byte l) = length l.
Proof.
  induction l as [|b l IH]; [reflexivity|].
  change (string_of_list_byte (b :: l))
    with (String (ascii_of_byte b) (string_of_list_byte l)).
  cbn [String.length length]. f_equal. exact IH.
Qed.

Lemma all_chars_printable (l : bytes) :
  Forall (fun b => printable b = true) l ->
  all_chars printable_char (string_of_list_byte l) = true.
Proof.
  induction 1 as [|b l Hb _ IH]; [reflexivity|].
  change (string_of_list_byte (b :: l))
    with (String (ascii_of_byte b) (string_of_list_byte l)).
  cbn [all_chars]. rewrite (printable_char_of_byte b Hb). exact IH.
Qed.

Lemma format_hex_shape (b : byte) : well_formed (byte_item b) = true.
Proof. destruct b; vm_compute; reflexivity. Qed.

End Decode.

(** ** The greedy span and the matches *)

Section Matches.

Lemma span_printable_le (l : bytes) : span_printable l <= length l.
Proof. induction l as [|b l IH]; cbn; [lia|]. destruct (printable b); cbn; lia. Qed.

Lemma span_printable_take (l : bytes) :
  Forall (fun b => printable b = true) (take (span_printable l) l).
Proof.
  induction l as [|b l IH]; cbn; [constructor|].
  destruct (printable b) eqn:Hb; cbn; [|constructor].
  constructor; assumption.
Qed.

Lemma span_printable_drop (l : bytes) :
  starts_outside_run (drop (span_printable l) l) = true.
Proof.
  induction l as [|b l IH]; cbn; [reflexivity|].
  destruct (printable b) eqn:Hb; cbn; [exact IH|]. rewrite Hb. reflexivity.
Qed.

Lemma span_printable_all (l post : bytes) :
  Forall (fun b => printable b = true) l ->
  starts_outside_run post = true ->
  span_printable (l ++ post) = length l.
Proof.
  induction 1 as [|b l Hb _ IH]; intros Hpost; cbn.
  - destruct post as [|c post]; [reflexivity|]. cbn in Hpost |- *.
    destruct (printable c); [discriminate|reflexivity].
  - rewrite Hb, IH by assumption. reflexivity.
Qed.

(** Inside a match the search does not look at the bytes. *)
Lemma finditer_from_skip (k pos : nat) (l : bytes) :
  finditer_from pos k l = finditer_from (pos + k) 0 (drop k l).
Proof.
  revert pos l. induction k as [|k IH]; intros pos l.
  - rewrite Nat.add_0_r. reflexivity.
  - destruct l as [|b l]; [reflexivity|].
    cbn [finditer_from drop]. rewrite IH. f_equal. lia.
Qed.

Lemma finditer_from_match (pos : nat) (l : bytes) :
  2 <= span_printable l ->
  finditer_from pos 0 l =
  (pos, pos + span_printable l)
    :: finditer_from (pos + span_printable l) 0 (drop (span_printable l) l).
Proof.
  intros Hn. destruct l as [|b l]; [cbn in Hn; lia|].
  cbn [finditer_from]. destruct (Nat.leb_spec 2 (span_printable (b :: l))); [|lia].
  f_equal. rewrite finditer_from_skip.
  destruct (span_printable (b :: l)) as [|n] eqn:E; [lia|].
  cbn [drop]. replace (S n - 1) with n by lia. f_equal. lia.
Qed.

Lemma finditer_from_no_match (pos : nat) (b : byte) (l : bytes) :
  span_printable (b :: l) < 2 ->
  finditer_from pos 0 (b :: l) = finditer_from (S pos) 0 l.
Proof.
  intros Hn. cbn [finditer_from].
  destruct (Nat.leb_spec 2 (span_printable (b :: l))); [lia|reflexivity].
Qed.

End Matches.

(** ** The two-state scanner *)

Section Scanner.

Lemma scanner_span (cur l : bytes) :
  scanner cur l =
  flush (cur ++ take (span_printable l) l) ++ tokens_spec (drop (span_printable l) l).
Proof.
  revert cur. induction l as [|b l IH]; intros cur; cbn.
  - rewrite !app_nil_r. reflexivity.
  - destruct (printable b) eqn:Hb; cbn.
    + rewrite IH, <- app_assoc. reflexivity.
    + rewrite Hb, app_nil_r. reflexivity.
Qed.

Lemma tokens_spec_match (l : bytes) :
  2 <= span_printable l ->
  tokens_spec l =
  ("String", string_of_list_byte (take (span_printable l) l))
    :: tokens_spec (drop (span_printable l) l).
Proof.
  intros Hn. unfold tokens_spec at 1. rewrite scanner_span. cbn [app].
  pose proof (span_printable_le l) as Hle.
  assert (Hlen : length (take (span_printable l) l) = span_printable l)
    by (rewrite length_take; lia).
  destruct (take (span_printable l) l) as [|x [|y t]]; cbn in Hlen; try lia.
  reflexivity.
Qed.

Lemma tokens_spec_no_match (b : byte) (l : bytes) :
  span_printable (b :: l) < 2 ->
  tokens_spec (b :: l) = byte_item b :: tokens_spec l.
Proof.
  intros Hn. unfold tokens_spec at 1. cbn [scanner]. cbn in Hn.
  destruct (printable b) eqn:Hb; [|reflexivity].
  rewrite scanner_span. assert (E : span_printable l = 0) by lia.
  rewrite E. cbn. reflexivity.
Qed.

(** A byte outside the class cuts the scan in two. *)
Lemma scanner_cut (cur a : bytes) (np : byte) (b : bytes) :
  printable np = false ->
  scanner cur (a ++ np :: b) = scanner cur a ++ byte_item np :: tokens_spec b.
Proof.
  intros Hnp. revert cur. induction a as [|x a IH]; intros cur; cbn.
  - rewrite Hnp. reflexivity.
  - destruct (printable x); [apply IH|].
    rewrite IH, <- app_assoc. reflexivity.
Qed.

Lemma scanner_run (cur l : bytes) :
  Forall (fun b => printable b = true) l -> scanner cur l = flush (cur ++ l).
Proof.
  intros H. revert cur. induction H as [|b l Hb _ IH]; intros cur; cbn.
  - rewrite app_nil_r. reflexivity.
  - rewrite Hb, IH, <- app_assoc. reflexivity.
Qed.

End Scanner.

(** ** The loop of the tokenizer *)

Section Loop.

Variable data : bytes.

(** Without a stop request the loop is a fold of its body over the matches. *)
Lemma scan_loop_never (ms : list (nat * nat)) (k : nat) (st : scan_state) :
  scan_loop data never k ms st = inl (fold_left (scan_step data) ms st).
Proof.
  revert k st. induction ms as [|m ms IH]; intros k st; cbn; [reflexivity|].
  apply IH.
Qed.

Lemma scan_step_grows (st : scan_state) (m : nat * nat) :
  final_parsed_data st `prefix_of` final_parsed_data (scan_step data st m).
Proof.
  destruct m as [a b]. unfold scan_step. cbn [final_parsed_data].
  destruct (last_match_end st <? a);
    destruct (truthy (decode_utf8_ignore (slice data a b)));
    rewrite <- ?app_assoc; try apply prefix_app_r; reflexivity.
Qed.

Lemma scan_fold_grows (ms : list (nat * nat)) (st : scan_state) :
  final_parsed_data st `prefix_of` final_parsed_data (fold_left (scan_step data) ms st).
Proof.
  revert st. induction ms as [|m ms IH]; intros st; cbn; [reflexivity|].
  etransitivity; [apply scan_step_grows|apply IH].
Qed.

(** Whatever the stop event does, the loop either runs through as if it were
    never set, or returns the items gathered before some match. *)
Lemma scan_loop_cases (stop : nat -> bool) (ms : list (nat * nat)) (k : nat)
    (st : scan_state) :
  scan_loop data stop k ms st = inl (fold_left (scan_step data) ms st)
  \/ exists fpd,
       scan_loop data stop k ms st = inr (Outcome fpd true "Interrupted")
       /\ fpd `prefix_of` final_parsed_data (fold_left (scan_step data) ms st).
Proof.
  revert k st. induction ms as [|m ms IH]; intros k st; cbn [scan_loop fold_left].
  - left. reflexivity.
  - destruct (stop k).
    + right. exists (final_parsed_data st). split; [reflexivity|].
      etransitivity; [apply scan_step_grows|apply scan_fold_grows].
    + apply IH.
Qed.

End Loop.

Section Refinement.

Lemma truthy_string_of_list_byte (l : bytes) :
  1 <= length l -> truthy (string_of_list_byte l) = true.
Proof. destruct l; cbn; [lia|reflexivity]. Qed.

(** The body of the loop on the match that starts where the scan stands. *)
Lemma scan_step_match (pre l : bytes) (fpd : list token) (lme : nat) :
  lme <= length pre ->
  2 <= span_printable l ->
  scan_step (pre ++ l) (ScanState fpd lme) (length pre, length pre + span_printable l) =
  ScanState
    (fpd ++ map byte_item (drop lme pre)
         ++ [("String", string_of_list_byte (take (span_printable l) l))])
    (length pre + span_printable l).
Proof.
  intros Hlme Hn. unfold scan_step, slice. cbn [final_parsed_data last_match_end].
  pose proof (span_printable_le l) as Hle.
  rewrite (drop_app_le pre l lme Hlme).
  rewrite (drop_app_length pre l).
  replace (length pre + span_printable l - length pre) with (span_printable l) by lia.
  rewrite (decode_printable _ (span_printable_take l)).
  rewrite truthy_string_of_list_byte by (rewrite length_take; lia).
  rewrite take_app_length' by (rewrite length_drop; lia).
  f_equal. destruct (Nat.ltb_spec lme (length pre)) as [Hlt|Hge].
  - rewrite <- app_assoc. reflexivity.
  - rewrite (drop_ge pre lme) by lia. cbn. reflexivity.
Qed.

(** The loop followed by the trailing bytes computes the two-state scanner. *)
Lemma scan_fold_spec (n : nat) :
  forall (l : bytes), length l = n ->
  forall (pre : bytes) (fpd : list token) (lme : nat),
  lme <= length pre ->
  let st' :=
    fold_left (scan_step (pre ++ l)) (finditer_from (length pre) 0 l) (ScanState fpd lme) in
  last_match_end st' <= length (pre ++ l)
  /\ final_parsed_data st' ++ map byte_item (drop (last_match_end st') (pre ++ l))
     = fpd ++ map byte_item (drop lme pre) ++ tokens_spec l.
Proof.
  induction n as [n IH] using lt_wf_ind. intros l Hlen pre fpd lme Hlme. cbv zeta.
  destruct l as [|b l].
  - cbn. rewrite !app_nil_r. split; [exact Hlme|reflexivity].
  - destruct (le_lt_dec 2 (span_printable (b :: l))) as [Hm|Hm].
    + rewrite (finditer_from_match _ _ Hm). cbn [fold_left].
      rewrite (scan_step_match pre (b :: l) fpd lme Hlme Hm).
      set (k := span_printable (b :: l)) in *.
      pose proof (span_printable_le (b :: l)) as Hle. fold k in Hle.
      assert (Hsplit : pre ++ b :: l = (pre ++ take k (b :: l)) ++ drop k (b :: l))
        by (rewrite <- app_assoc, take_drop; reflexivity).
      assert (Hpre : length (pre ++ take k (b :: l)) = length pre + k)
        by (rewrite length_app, length_take; lia).
      assert (Hlt : length (drop k (b :: l)) < n) by (rewrite length_drop; lia).
      pose proof (IH _ Hlt (drop k (b :: l)) eq_refl (pre ++ take k (b :: l))
        (fpd ++ map byte_item (drop lme pre)
             ++ [("String", string_of_list_byte (take k (b :: l)))])
        (length (pre ++ take k (b :: l))) (Nat.le_refl _)) as H.
      cbv zeta in H. rewrite <- Hsplit, Hpre in H. destruct H as [H1 H2].
      split; [exact H1|]. rewrite H2.
      rewrite <- Hpre, drop_all. cbn [map app].
      rewrite (tokens_spec_match (b :: l) Hm). fold k.
      rewrite <- !app_assoc. reflexivity.
    + rewrite (finditer_from_no_match _ _ _ Hm).
      assert (Hsplit : pre ++ b :: l = (pre ++ [b]) ++ l)
        by (rewrite <- app_assoc; reflexivity).
      assert (Hpre : length (pre ++ [b]) = S (length pre))
        by (rewrite length_app; cbn; lia).
      assert (Hlt : length l < n) by (cbn in Hlen; lia).
      pose proof (IH _ Hlt l eq_refl (pre ++ [b]) fpd lme ltac:(lia)) as H.
      cbv zeta in H. rewrite <- Hsplit, Hpre in H. destruct H as [H1 H2].
      split; [exact H1|]. rewrite H2.
      rewrite (drop_app_le pre [b] lme Hlme), map_app.
      rewrite (tokens_spec_no_match b l Hm). cbn [map].
      rewrite <- !app_assoc. reflexivity.
Qed.

(** What [scan] returns when the stop event stays clear. *)
Lemma scan_never (data : bytes) (n : Z) :
  scan data n never = Outcome (tokens_spec (slice_to data n)) false "Complete".
Proof.
  unfold scan, finditer. rewrite scan_loop_never.
  destruct (scan_fold_spec _ (slice_to data n) eq_refl [] [] 0 (Nat.le_refl _))
    as [H1 H2].
  cbn [app length drop map] in H1, H2. f_equal.
  destruct (Nat.ltb_spec
    (last_match_end (fold_left (scan_step (slice_to data n))
                       (finditer_from 0 0 (slice_to data n)) (ScanState [] 0)))
    (length (slice_to data n))) as [Hlt|Hge].
  - exact H2.
  - rewrite drop_ge in H2 by lia. cbn in H2. rewrite app_nil_r in H2. exact H2.
Qed.

(** What [scan] returns under any behaviour of the stop event. *)
Lemma scan_cases (data : bytes) (n : Z) (stop : nat -> bool) :
  scan data n stop = scan data n never
  \/ exists fpd,
       scan data n stop = Outcome fpd true "Interrupted"
       /\ fpd `prefix_of` parsed_data (scan data n never).
Proof.
  unfold scan at 1 3.
  destruct (scan_loop_cases (slice_to data n) stop (finditer (slice_to data n)) 0
              (ScanState [] 0)) as [E|(fpd & E & Hp)]; rewrite E.
  - left. unfold scan. rewrite scan_loop_never. reflexivity.
  - right. exists fpd. split; [reflexivity|].
    unfold scan. rewrite scan_loop_never. cbn [parsed_data].
    etransitivity; [exact Hp|].
    match goal with |- context [if ?c then _ else _] => destruct c end;
      [apply prefix_app_r|]; reflexivity.
Qed.

End Refinement.

(** ** Properties of the scanner *)

Section ScannerProperties.

Lemma covered_bytes_app (a b : list token) :
  covered_bytes (a ++ b) = covered_bytes a + covered_bytes b.
Proof.
  unfold covered_bytes. induction a as [|t a IH]; cbn; [reflexivity|].
  rewrite IH. lia.
Qed.

Lemma covered_bytes_flush (cur : bytes) : covered_bytes (flush cur) = length cur.
Proof.
  destruct cur as [|x [|y cur]]; try reflexivity.
  unfold flush, covered_bytes. cbn [map sum_list]. unfold item_bytes. cbn [fst snd].
  change (String.eqb "String" "String") with true. cbv iota.
  rewrite length_string_of_list_byte. unfold id. lia.
Qed.

Lemma covered_bytes_scanner (l cur : bytes) :
  covered_bytes (scanner cur l) = length cur + length l.
Proof.
  revert cur. induction l as [|b l IH]; intros cur; cbn [scanner].
  - rewrite covered_bytes_flush. cbn. lia.
  - destruct (printable b).
    + rewrite IH, length_app. cbn. lia.
    + rewrite covered_bytes_app, covered_bytes_flush.
      change (byte_item b :: scanner [] l) with ([byte_item b] ++ scanner [] l).
      rewrite covered_bytes_app, IH. cbn. lia.
Qed.

Lemma covered_bytes_tokens_spec (l : bytes) : covered_bytes (tokens_spec l) = length l.
Proof. unfold tokens_spec. rewrite covered_bytes_scanner. reflexivity. Qed.

Lemma well_formed_flush (cur : bytes) :
  Forall (fun b => printable b = true) cur ->
  Forall (fun t => well_formed t = true) (flush cur).
Proof.
  intros H. destruct cur as [|x [|y cur]]; cbn [flush].
  - constructor.
  - constructor; [apply format_hex_shape|constructor].
  - constructor; [|constructor].
    unfold well_formed. cbn [fst snd].
    change (String.eqb "String" "Byte") with false.
    change (String.eqb "String" "String") with true. cbv iota.
    rewrite length_string_of_list_byte, (all_chars_printable _ H). reflexivity.
Qed.

Lemma well_formed_scanner (l cur : bytes) :
  Forall (fun b => printable b = true) cur ->
  Forall (fun t => well_formed t = true) (scanner cur l).
Proof.
  revert cur. induction l as [|b l IH]; intros cur Hcur; cbn [scanner].
  - apply well_formed_flush, Hcur.
  - destruct (printable b) eqn:Hb.
    + apply IH. apply Forall_app. split; [exact Hcur|]. constructor; [exact Hb|constructor].
    + apply Forall_app. split; [apply well_formed_flush, Hcur|].
      constructor; [apply format_hex_shape|]. apply IH. constructor.
Qed.

(** A maximal printable run is scanned on its own. *)
Lemma tokens_spec_around_run (pre run post : bytes) :
  Forall (fun b => printable b = true) run ->
  ends_outside_run pre = true ->
  starts_outside_run post = true ->
  tokens_spec (pre ++ run ++ post) = tokens_spec pre ++ flush run ++ tokens_spec post.
Proof.
  intros Hrun Hpre Hpost.
  assert (Hright : tokens_spec (run ++ post) = flush run ++ tokens_spec post).
  { destruct post as [|np post]; unfold tokens_spec.
    - rewrite app_nil_r, scanner_run by exact Hrun. cbn. rewrite app_nil_r. reflexivity.
    - cbn in Hpost. apply negb_true_iff in Hpost.
      rewrite (scanner_cut [] run np post Hpost), (scanner_run [] run Hrun).
      cbn [scanner app]. rewrite Hpost. reflexivity. }
  destruct pre as [|np pre _] using rev_ind.
  - cbn [app]. exact Hright.
  - unfold ends_outside_run in Hpre. rewrite last_snoc in Hpre.
    apply negb_true_iff in Hpre. rewrite <- app_assoc. cbn [app].
    unfold tokens_spec at 1 2.
    rewrite (scanner_cut [] pre np (run ++ post) Hpre).
    rewrite (scanner_cut [] pre np [] Hpre). fold (tokens_spec pre).
    rewrite Hright. cbn. rewrite <- app_assoc. reflexivity.
Qed.

End ScannerProperties.

(** ** The tokenizer: the properties of the specification *)

Section TokenizerClaims.

Lemma threaded_read (fs : string -> exc bytes) (file_path : string) (data : bytes)
    (stop : nat -> bool) (n : Z) :
  fs file_path = Ret data ->
  _parse_sol_content_threaded fs file_path stop n = Ret [scan data n stop].
Proof.
  intros Hfs. unfold _parse_sol_content_threaded, try_body. rewrite Hfs. reflexivity.
Qed.

Lemma scan_complete (data : bytes) (n : Z) (stop : nat -> bool) :
  status_message (scan data n stop) = "Complete" ->
  scan data n stop = scan data n never.
Proof.
  intros Hst. destruct (scan_cases data n stop) as [E|(fpd & E & _)]; [exact E|].
  rewrite E in Hst. cbn in Hst. discriminate.
Qed.

(** C3 (coverage).  When the file is read and the tokenizer delivers a
    complete outcome, the bytes its items stand for (the length of the text of
    a String item, one per Byte item) add up to the length of the truncated
    buffer. *)
Theorem coverage_complete (fs : string -> exc bytes) (file_path : string)
    (data : bytes) (n : Z) (stop : nat -> bool) (o : outcome) :
  fs file_path = Ret data ->
  _parse_sol_content_threaded fs file_path stop n = Ret [o] ->
  status_message o = "Complete" ->
  covered_bytes (parsed_data o) = length (slice_to data n).
Proof.
  intros Hfs Hrun Hst. rewrite (threaded_read _ _ _ _ _ Hfs) in Hrun.
  injection Hrun as <-. rewrite (scan_complete _ _ _ Hst), scan_never.
  apply covered_bytes_tokens_spec.
Qed.

(** C4 (cancellation).  The items of an interrupted outcome are a prefix of
    the items of the complete outcome the same buffer gives when the stop
    event is never set. *)
Theorem interrupted_prefix (fs : string -> exc bytes) (file_path : string)
    (data : bytes) (n : Z) (stop : nat -> bool) (o : outcome) :
  fs file_path = Ret data ->
  _parse_sol_content_threaded fs file_path stop n = Ret [o] ->
  status_message o = "Interrupted" ->
  exists o_full,
    _parse_sol_content_threaded fs file_path never n = Ret [o_full]
    /\ status_message o_full = "Complete"
    /\ parsed_data o `prefix_of` parsed_data o_full.
Proof.
  intros Hfs Hrun Hst. rewrite (threaded_read _ _ _ _ _ Hfs) in Hrun.
  injection Hrun as <-. exists (scan data n never).
  split; [apply threaded_read, Hfs|]. split; [rewrite scan_never; reflexivity|].
  destruct (scan_cases data n stop) as [E|(fpd & E & Hp)]; rewrite E.
  - reflexivity.
  - exact Hp.
Qed.

(** C6 (run threshold).  In a complete outcome, a maximal printable run of
    one byte at some offset of the truncated buffer is the Byte item at that
    offset, and a maximal printable run of two bytes is one String item whose
    text is the run. *)
Theorem run_threshold (fs : string -> exc bytes) (file_path : string)
    (data : bytes) (n : Z) (stop : nat -> bool) (o : outcome) (pre run post : bytes) :
  fs file_path = Ret data ->
  _parse_sol_content_threaded fs file_path stop n = Ret [o] ->
  status_message o = "Complete" ->
  slice_to data n = pre ++ run ++ post ->
  Forall (fun b => printable b = true) run ->
  ends_outside_run pre = true ->
  starts_outside_run post = true ->
  exists before after,
    covered_bytes before = length pre
    /\ covered_bytes after = length post
    /\ (forall b, run = [b] ->
          parsed_data o = before ++ [("Byte", format_hex b)] ++ after)
    /\ (length run = 2 ->
          parsed_data o = before ++ [("String", decode_utf8_ignore run)] ++ after).
Proof.
  intros Hfs Hrun Hst Hsplit Hprint Hpre Hpost.
  rewrite (threaded_read _ _ _ _ _ Hfs) in Hrun. injection Hrun as <-.
  rewrite (scan_complete _ _ _ Hst), scan_never. cbn [parsed_data].
  rewrite Hsplit, (tokens_spec_around_run pre run post Hprint Hpre Hpost).
  exists (tokens_spec pre), (tokens_spec post).
  split; [apply covered_bytes_tokens_spec|]. split; [apply covered_bytes_tokens_spec|].
  split.
  - intros b ->. reflexivity.
  - intros Hlen. rewrite (decode_printable run Hprint).
    destruct run as [|x [|y [|z run]]]; cbn in Hlen; try lia. reflexivity.
Qed.

(** C7 (truncation).  Two buffers that agree on their first
    [max_bytes_to_process] bytes give the same outcome under the same
    behaviour of the stop event, and that outcome is not an error: its status
    is "Complete" or "Interrupted", and "Complete" with the flag down when
    the stop event is never set. *)
Theorem truncation_hides_tail (fs1 fs2 : string -> exc bytes) (file_path : string)
    (d1 d2 : bytes) (n : Z) (stop : nat -> bool) :
  (0 <= n)%Z ->
  fs1 file_path = Ret d1 ->
  fs2 file_path = Ret d2 ->
  take (Z.to_nat n) d1 = take (Z.to_nat n) d2 ->
  _parse_sol_content_threaded fs1 file_path stop n
    = _parse_sol_content_threaded fs2 file_path stop n
  /\ exists o,
       _parse_sol_content_threaded fs1 file_path stop n = Ret [o]
       /\ (status_message o = "Complete" \/ status_message o = "Interrupted")
       /\ ((forall k, stop k = false) ->
             was_incomplete o = false /\ status_message o = "Complete").
Proof.
  intros Hn H1 H2 Hagree.
  rewrite (threaded_read _ _ _ _ _ H1), (threaded_read _ _ _ _ _ H2).
  assert (Hcut : slice_to d1 n = slice_to d2 n).
  { unfold slice_to. destruct (Z.leb_spec 0 n); [exact Hagree|lia]. }
  split; [unfold scan; rewrite Hcut; reflexivity|].
  exists (scan d1 n stop). split; [reflexivity|]. split.
  - destruct (scan_cases d1 n stop) as [E|(fpd & E & _)]; rewrite E.
    + left. rewrite scan_never. reflexivity.
    + right. reflexivity.
  - intros Hstop. unfold scan.
    assert (Hloop : forall ms k st,
      scan_loop (slice_to d1 n) stop k ms st
      = inl (fold_left (scan_step (slice_to d1 n)) ms st)).
    { induction ms as [|m ms IH]; intros k st; cbn; [reflexivity|].
      rewrite Hstop. apply IH. }
    rewrite Hloop. split; reflexivity.
Qed.

(** C9 (empty file).  A file of zero bytes gives a complete outcome without
    items, whatever the byte cap and the stop event. *)
Theorem empty_file_complete (fs : string -> exc bytes) (file_path : string)
    (n : Z) (stop : nat -> bool) :
  fs file_path = Ret [] ->
  _parse_sol_content_threaded fs file_path stop n = Ret [Outcome [] false "Complete"].
Proof.
  intros Hfs. rewrite (threaded_read _ _ _ _ _ Hfs). unfold scan, slice_to.
  rewrite !take_nil. destruct (0 <=? n)%Z; reflexivity.
Qed.

(** C10 (shape of the items).  Every item of an outcome delivered after the
    file was read, complete or interrupted, is well formed: a Byte item holds
    "0x" and two lowercase hexadecimal digits, a String item holds at least
    two characters, all of them printable ASCII. *)
Theorem items_well_formed (fs : string -> exc bytes) (file_path : string)
    (data : bytes) (n : Z) (stop : nat -> bool) (o : outcome) :
  fs file_path = Ret data ->
  _parse_sol_content_threaded fs file_path stop n = Ret [o] ->
  (status_message o = "Complete" \/ status_message o = "Interrupted")
  /\ Forall (fun t => well_formed t = true) (parsed_data o).
Proof.
  intros Hfs Hrun. rewrite (threaded_read _ _ _ _ _ Hfs) in Hrun. injection Hrun as <-.
  assert (Hfull : Forall (fun t => well_formed t = true) (parsed_data (scan data n never))).
  { rewrite scan_never. apply well_formed_scanner. constructor. }
  destruct (scan_cases data n stop) as [E|(fpd & E & [k Hk])]; rewrite E.
  - split; [left; rewrite scan_never; reflexivity|exact Hfull].
  - split; [right; reflexivity|]. cbn [parsed_data].
    rewrite Hk in Hfull. apply Forall_app in Hfull. apply Hfull.
Qed.

End TokenizerClaims.

(** ** The extraction loop *)

Section ExtractorLemmas.

Local Arguments String.eqb : simpl never.

Lemma item_drop (content : list token) (i k : nat) :
  item content (i + k) = item (drop i content) k.
Proof. unfold item. rewrite lookup_total_drop. reflexivity. Qed.

Lemma ltb_drop (content : list token) (i k : nat) :
  (i + k <? length content) = (k <? length (drop i content)).
Proof.
  rewrite length_drop.
  destruct (Nat.ltb_spec (i + k) (length content));
    destruct (Nat.ltb_spec k (length content - i)); try reflexivity; lia.
Qed.

Ltac split_eqb :=
  repeat match goal with
         | |- context [String.eqb ?a ?b] => destruct (String.eqb a b)
         end.

(** The body of the loop, field by field, in terms of the motifs. *)
Lemma extract_step_spec (content : list token) (e p : string) (i : nat) :
  extract_step content (e, p) i =
  (match candidate "Email" content i with
   | Some c => if valid_email c then c else e
   | None => e
   end,
   match candidate "Password" content i with
   | Some c => c
   | None => p
   end).
Proof.
  unfold extract_step, candidate, motif_value, valid_email, token_eqb.
  replace (item content i) with (item (drop i content) 0)
    by (rewrite <- (item_drop content i 0); f_equal; lia).
  rewrite !item_drop, !ltb_drop.
  generalize (drop i content) as d. intros d.
  destruct d as [|[t0 v0] [|[t1 v1] [|[t2 v2] [|[t3 v3] [|[t4 v4] r]]]]];
    cbn -[String.eqb contains sub_leading_nonword clean_string];
    split_eqb; cbn -[contains sub_leading_nonword clean_string];
    try reflexivity;
    repeat match goal with
           | |- context [if ?c then _ else _] => destruct c
           end; reflexivity.
Qed.

End ExtractorLemmas.

Section ExtractorFold.

Variable content : list token.

(** The two fields evolve independently along the loop. *)
Lemma extract_from_spec (idxs : list nat) (e p : string) :
  extract_from content idxs (e, p) =
  (keep_last (accepted_email content) idxs e,
   keep_last (candidate "Password" content) idxs p).
Proof.
  unfold extract_from, keep_last. revert e p.
  induction idxs as [|i idxs IH]; intros e p; cbn [fold_left]; [reflexivity|].
  rewrite extract_step_spec, IH. unfold accepted_email.
  destruct (candidate "Email" content i) as [c|]; [|reflexivity].
  destruct (valid_email c); reflexivity.
Qed.

Lemma keep_last_none (f : nat -> option string) (idxs : list nat) (d : string) :
  (forall j, j ∈ idxs -> f j = None) -> keep_last f idxs d = d.
Proof.
  unfold keep_last. revert d. induction idxs as [|i idxs IH]; intros d H; cbn; [reflexivity|].
  rewrite (H i) by (left). apply IH. intros j Hj. apply H. right. exact Hj.
Qed.

Lemma keep_last_app (f : nat -> option string) (a b : list nat) (d : string) :
  keep_last f (a ++ b) d = keep_last f b (keep_last f a d).
Proof. unfold keep_last. apply fold_left_app. Qed.

(** The last index at which [f] answers decides the result. *)
Lemma keep_last_at (f : nat -> option string) (n i : nat) (c d : string) :
  i < n ->
  f i = Some c ->
  (forall j, i < j -> f j = None) ->
  keep_last f (seq 0 n) d = c.
Proof.
  intros Hi Hf Hlater.
  replace n with (i + S (n - S i)) by lia.
  rewrite seq_app, keep_last_app. cbn [seq]. change (0 + i) with i.
  unfold keep_last at 1. cbn [fold_left]. rewrite Hf.
  apply keep_last_none. intros j Hj. apply Hlater.
  apply elem_of_seq in Hj. lia.
Qed.

(** The result is the default or a value [f] gives inside the range. *)
Lemma keep_last_origin (f : nat -> option string) (idxs : list nat) (d : string) :
  keep_last f idxs d = d \/ exists i, i ∈ idxs /\ f i = Some (keep_last f idxs d).
Proof.
  induction idxs as [|i idxs IH] using rev_ind; [left; reflexivity|].
  rewrite keep_last_app. unfold keep_last at 1 3. cbn [fold_left].
  destruct (f i) as [c|] eqn:Hf.
  - right. exists i. split; [apply elem_of_app; right; left|exact Hf].
  - destruct IH as [IH|(j & Hj & IH)]; [left; exact IH|].
    right. exists j. split; [apply elem_of_app; left; exact Hj|exact IH].
Qed.

Lemma candidate_in_range (label : string) (i : nat) (c : string) :
  candidate label content i = Some c -> i < length content.
Proof.
  unfold candidate, motif_value. intros H.
  destruct (Nat.lt_ge_cases i (length content)) as [Hlt|Hge]; [exact Hlt|].
  rewrite drop_ge in H by lia. discriminate.
Qed.

End ExtractorFold.

(** ** The extractor: the properties of the specification *)

Section ExtractorClaims.

(** C1, as the specification states it, fails: with two complete Password
    motifs the value of the first one is not the password returned. *)
Lemma first_password_overwritten :
  candidate "Password" two_passwords 0 = Some "first"
  /\ candidate "Password" two_passwords 4 = Some "second"
  /\ extracted_password two_passwords <> "first".
Proof. vm_compute. repeat split; discriminate. Qed.

(** C1, amended.  The password returned is the cleaned value of the last
    structural match of the Password label: every structural match
    overwrites the value held. *)
Theorem last_password_wins (content : list token) (i : nat) (c : string) :
  candidate "Password" content i = Some c ->
  (forall j, i < j -> candidate "Password" content j = None) ->
  extracted_password content = c.
Proof.
  intros Hc Hlater. unfold extracted_password, extract_fields.
  rewrite extract_from_spec. cbn [snd].
  apply (keep_last_at _ _ i); [eapply candidate_in_range; exact Hc|exact Hc|exact Hlater].
Qed.

(** C5 (email check).  At each Email motif the cleaned candidate replaces the
    value held only when it contains both '@' and '.', and is otherwise a
    no-op; so the email returned is the last candidate that passes the check,
    whatever failed before it, and it is the sentinel or a candidate that
    passed. *)
Theorem email_needs_at_and_dot (content : list token) :
  (forall i e p,
     fst (extract_step content (e, p) i) =
     match candidate "Email" content i with
     | Some c => if contains "@" c && contains "." c then c else e
     | None => e
     end)
  /\ (forall i c,
        candidate "Email" content i = Some c ->
        contains "@" c && contains "." c = true ->
        (forall j c', i < j -> candidate "Email" content j = Some c' ->
                      contains "@" c' && contains "." c' = false) ->
        extracted_email content = c)
  /\ (extracted_email content = "Not found"
      \/ exists i,
           candidate "Email" content i = Some (extracted_email content)
           /\ contains "@" (extracted_email content)
              && contains "." (extracted_email content) = true).
Proof.
  split; [|split].
  - intros i e p. rewrite extract_step_spec. reflexivity.
  - intros i c Hc Hv Hlater. unfold extracted_email, extract_fields.
    rewrite extract_from_spec. cbn [fst].
    apply (keep_last_at _ _ i); [eapply candidate_in_range; exact Hc| |].
    + unfold accepted_email, valid_email. rewrite Hc, Hv. reflexivity.
    + intros j Hj. unfold accepted_email, valid_email.
      destruct (candidate "Email" content j) as [c'|] eqn:Hc'; [|reflexivity].
      rewrite (Hlater j c' Hj Hc'). reflexivity.
  - unfold extracted_email, extract_fields. rewrite extract_from_spec. cbn [fst].
    destruct (keep_last_origin (accepted_email content) (seq 0 (length content)) "Not found")
      as [H|(i & _ & H)]; [left; exact H|].
    right. exists i.
    set (r := keep_last (accepted_email content) (seq 0 (length content)) "Not found") in *.
    unfold accepted_email, valid_email in H.
    destruct (candidate "Email" content i) as [c|]; [|discriminate].
    destruct (contains "@" c && contains "." c) eqn:Hv; [|discriminate].
    injection H as H. rewrite <- H. split; [reflexivity|exact Hv].
Qed.

End ExtractorClaims.

(** ** The harness: the properties of the specification *)

Section HarnessClaims.

(** The worker never lets an exception escape: it leaves exactly one item on
    the queue. *)
Lemma threaded_puts_one (fs : string -> exc bytes) (file_path : string)
    (stop : nat -> bool) (n : Z) :
  exists o, _parse_sol_content_threaded fs file_path stop n = Ret [o].
Proof.
  unfold _parse_sol_content_threaded, try_body.
  destruct (fs file_path) as [data|e]; eexists; reflexivity.
Qed.

(** C2, as the specification states it, fails: after a timeout the list of
    items returned is not empty. *)
Lemma timeout_items_not_empty :
  ~ (parsed_data (returned (parse_sol_content_with_timeout
                              ex_fs "sol" "5.0" default_max_bytes never Elapsed)) = []
     /\ status_message (returned (parse_sol_content_with_timeout
                              ex_fs "sol" "5.0" default_max_bytes never Elapsed))
        = "Timed Out").
Proof. vm_compute. intros [H _]. discriminate. Qed.

(** C2, amended.  When the timeout elapses first, the call sets the stop
    event and returns one "Error" item whose text names the timeout, with
    the incomplete flag up and the status "Timed Out". *)
Theorem timeout_outcome (fs : string -> exc bytes) (file_path timeout_repr : string)
    (n : Z) (stop : nat -> bool) :
  parse_sol_content_with_timeout fs file_path timeout_repr n stop Elapsed =
  CallResult
    (Outcome [("Error", "Parsing timed out after " +:+ timeout_repr
                        +:+ "s. Content may be too large or complex.")]
             true "Timed Out")
    true.
Proof.
  unfold parse_sol_content_with_timeout.
  destruct (_parse_sol_content_threaded fs file_path stop n) as [[|o q]|e]; reflexivity.
Qed.

(** C8 (unreadable file).  When the file cannot be opened or read, the worker
    raises nothing and leaves one errored outcome with a single descriptive
    item on the queue, and the caller that receives it in time returns it. *)
Theorem unreadable_file_errored (fs : string -> exc bytes) (file_path e timeout_repr : string)
    (n : Z) (stop : nat -> bool) :
  fs file_path = Raise e ->
  _parse_sol_content_threaded fs file_path stop n
    = Ret [Outcome [("Error", "Error parsing: " +:+ e)] true "Error"]
  /\ returned (parse_sol_content_with_timeout fs file_path timeout_repr n stop Delivered)
     = Outcome [("Error", "Error parsing: " +:+ e)] true "Error".
Proof.
  intros Hfs.
  assert (H : _parse_sol_content_threaded fs file_path stop n
              = Ret [Outcome [("Error", "Error parsing: " +:+ e)] true "Error"]).
  { unfold _parse_sol_content_threaded, try_body. rewrite Hfs. reflexivity. }
  split; [exact H|]. unfold parse_sol_content_with_timeout. rewrite H. reflexivity.
Qed.

End HarnessClaims.

(** ** The properties at concrete inputs *)

Lemma coverage_complete_witness :
  covered_bytes (parsed_data (scan ex_data default_max_bytes never))
  = length (slice_to ex_data default_max_bytes).
Proof.
  apply (coverage_complete ex_fs "sol" ex_data default_max_bytes never);
    vm_compute; reflexivity.
Defined.

Lemma interrupted_prefix_witness :
  exists o_full,
    _parse_sol_content_threaded ex_fs "sol" never default_max_bytes = Ret [o_full]
    /\ status_message o_full = "Complete"
    /\ parsed_data (scan ex_data default_max_bytes stop_after_first)
       `prefix_of` parsed_data o_full.
Proof.
  apply (interrupted_prefix ex_fs "sol" ex_data default_max_bytes stop_after_first);
    vm_compute; reflexivity.
Defined.

Lemma run_threshold_witness :
  exists before after,
    covered_bytes before = 3
    /\ covered_bytes after = 7
    /\ (forall b, [x41] = [b] ->
          parsed_data (scan ex_data default_max_bytes never)
          = before ++ [("Byte", format_hex b)] ++ after)
    /\ (length [x41] = 2 ->
          parsed_data (scan ex_data default_max_bytes never)
          = before ++ [("String", decode_utf8_ignore [x41])] ++ after).
Proof.
  apply (run_threshold ex_fs "sol" ex_data default_max_bytes never
           (scan ex_data default_max_bytes never)
           (list_byte_of_string "Hi" ++ [x00]) [x41]
           (x06 :: list_byte_of_string "Email" ++ [xff]));
    try (vm_compute; reflexivity).
  constructor; [reflexivity|constructor].
Defined.

Lemma truncation_hides_tail_witness :
  _parse_sol_content_threaded ex_fs "sol" never 4
    = _parse_sol_content_threaded (fun _ => Ret ex_data_other_tail) "sol" never 4
  /\ exists o,
       _parse_sol_content_threaded ex_fs "sol" never 4 = Ret [o]
       /\ (status_message o = "Complete" \/ status_message o = "Interrupted")
       /\ ((forall k, never k = false) ->
             was_incomplete o = false /\ status_message o = "Complete").
Proof.
  apply (truncation_hides_tail ex_fs (fun _ => Ret ex_data_other_tail) "sol"
           ex_data ex_data_other_tail 4 never);
    [lia|reflexivity|reflexivity|vm_compute; reflexivity].
Defined.

Lemma empty_file_complete_witness :
  _parse_sol_content_threaded (fun _ => Ret []) "sol" never default_max_bytes
  = Ret [Outcome [] false "Complete"].
Proof. apply (empty_file_complete (fun _ => Ret []) "sol"). reflexivity. Defined.

Lemma items_well_formed_witness :
  (status_message (scan ex_data default_max_bytes stop_after_first) = "Complete"
   \/ status_message (scan ex_data default_max_bytes stop_after_first) = "Interrupted")
  /\ Forall (fun t => well_formed t = true)
       (parsed_data (scan ex_data default_max_bytes stop_after_first)).
Proof.
  apply (items_well_formed ex_fs "sol" ex_data default_max_bytes stop_after_first);
    vm_compute; reflexivity.
Defined.

Lemma unreadable_file_errored_witness :
  _parse_sol_content_threaded ex_fs "gone" never default_max_bytes
    = Ret [Outcome [("Error", "Error parsing: [Errno 2] No such file or directory")]
                   true "Error"]
  /\ returned (parse_sol_content_with_timeout ex_fs "gone" "5.0" default_max_bytes
                 never Delivered)
     = Outcome [("Error", "Error parsing: [Errno 2] No such file or directory")]
               true "Error".
Proof.
  apply (unreadable_file_errored ex_fs "gone" "[Errno 2] No such file or directory").
  reflexivity.
Defined.

Lemma last_password_wins_witness : extracted_password two_passwords = "second".
Proof.
  apply (last_password_wins two_passwords 4 "second"); [vm_compute; reflexivity|].
  intros j Hj. do 9 (destruct j as [|j]; [try lia; reflexivity|]). reflexivity.
Defined.

Lemma email_needs_at_and_dot_witness : extracted_email two_emails = "x@y.z".
Proof.
  apply (proj1 (proj2 (email_needs_at_and_dot two_emails)) 4 "x@y.z");
    [vm_compute; reflexivity|vm_compute; reflexivity|].
  intros j c' Hj. do 10 (destruct j as [|j]; [try lia; discriminate|]). discriminate.
Defined.

(** * Further properties of the code *)

(** ** The tokenizer keeps the bytes *)

Section RoundTrip.

Lemma item_to_bytes_byte_item (b : byte) : item_to_bytes (byte_item b) = [b].
Proof. destruct b; vm_compute; reflexivity. Qed.

Lemma untokenize_app (a b : list token) : untokenize (a ++ b) = untokenize a ++ untokenize b.
Proof. unfold untokenize. rewrite map_app, concat_app. reflexivity. Qed.

Lemma untokenize_flush (cur : bytes) : untokenize (flush cur) = cur.
Proof.
  destruct cur as [|x [|y cur]]; [reflexivity| |].
  - unfold flush, untokenize. cbn [map concat]. rewrite item_to_bytes_byte_item. reflexivity.
  - unfold flush, untokenize. cbn [map concat]. unfold item_to_bytes. cbn [fst snd].
    change (String.eqb "String" "String") with true. cbv iota.
    rewrite list_byte_of_string_of_list_byte, app_nil_r. reflexivity.
Qed.

Lemma untokenize_scanner (l cur : bytes) : untokenize (scanner cur l) = cur ++ l.
Proof.
  revert cur. induction l as [|b l IH]; intros cur; cbn [scanner].
  - rewrite untokenize_flush, app_nil_r. reflexivity.
  - destruct (printable b).
    + rewrite IH, <- app_assoc. reflexivity.
    + rewrite untokenize_app, untokenize_flush.
      change (byte_item b :: scanner [] l) with ([byte_item b] ++ scanner [] l).
      rewrite untokenize_app, IH. unfold untokenize at 1. cbn [map concat].
      rewrite item_to_bytes_byte_item. reflexivity.
Qed.

(** X1.  The items of a complete outcome give the truncated buffer back:
    reading each String item as the bytes of its text and each Byte item as
    the byte it names, in order, rebuilds [data[:max_bytes_to_process]]. *)
Theorem complete_round_trip (fs : string -> exc bytes) (file_path : string)
    (data : bytes) (n : Z) (stop : nat -> bool) (o : outcome) :
  fs file_path = Ret data ->
  _parse_sol_content_threaded fs file_path stop n = Ret [o] ->
  status_message o = "Complete" ->
  untokenize (parsed_data o) = slice_to data n.
Proof.
  intros Hfs Hrun Hst. rewrite (threaded_read _ _ _ _ _ Hfs) in Hrun.
  injection Hrun as <-. rewrite (scan_complete _ _ _ Hst), scan_never.
  cbn [parsed_data]. unfold tokens_spec. apply untokenize_scanner.
Qed.

End RoundTrip.

Lemma complete_round_trip_witness :
  untokenize (parsed_data (scan ex_data 4 never)) = slice_to ex_data 4.
Proof.
  apply (complete_round_trip ex_fs "sol" ex_data 4 never); vm_compute; reflexivity.
Defined.

(** ** String items never touch *)

Section Alternation.

Lemma no_adjacent_strings_byte (b : byte) (ts : list token) :
  no_adjacent_strings (byte_item b :: ts) = no_adjacent_strings ts.
Proof. destruct ts as [|t ts]; reflexivity. Qed.

Lemma no_adjacent_strings_flush_byte (cur : bytes) (b : byte) (ts : list token) :
  no_adjacent_strings (flush cur ++ byte_item b :: ts) = no_adjacent_strings ts.
Proof.
  destruct cur as [|x [|y cur]]; cbn [flush app].
  - apply no_adjacent_strings_byte.
  - rewrite !no_adjacent_strings_byte. reflexivity.
  - change (no_adjacent_strings (?t :: byte_item b :: ts))
      with (negb (is_string_item t && is_string_item (byte_item b))
            && no_adjacent_strings (byte_item b :: ts)).
    rewrite no_adjacent_strings_byte.
    change (is_string_item (byte_item b)) with false.
    rewrite andb_false_r. reflexivity.
Qed.

Lemma no_adjacent_strings_flush (cur : bytes) : no_adjacent_strings (flush cur) = true.
Proof. destruct cur as [|x [|y cur]]; reflexivity. Qed.

Lemma no_adjacent_strings_scanner (l cur : bytes) :
  no_adjacent_strings (scanner cur l) = true.
Proof.
  revert cur. induction l as [|b l IH]; intros cur; cbn [scanner].
  - apply no_adjacent_strings_flush.
  - destruct (printable b); [apply IH|].
    rewrite no_adjacent_strings_flush_byte. apply IH.
Qed.

Lemma no_adjacent_strings_prefix (a b : list token) :
  no_adjacent_strings (a ++ b) = true -> no_adjacent_strings a = true.
Proof.
  induction a as [|t1 [|t2 a] IH]; intros H; try reflexivity.
  cbn [app] in H, IH.
  change (negb (is_string_item t1 && is_string_item t2)
          && no_adjacent_strings (t2 :: a ++ b) = true) in H.
  change (negb (is_string_item t1 && is_string_item t2)
          && no_adjacent_strings (t2 :: a) = true).
  apply andb_true_iff in H as [H1 H2]. rewrite H1, (IH H2). reflexivity.
Qed.

(** X2.  In every outcome delivered after the file was read, complete or
    interrupted, no two String items are adjacent: printable runs are
    matched whole, so two String items always have a Byte item between them. *)
Theorem strings_never_adjacent (fs : string -> exc bytes) (file_path : string)
    (data : bytes) (n : Z) (stop : nat -> bool) (o : outcome) :
  fs file_path = Ret data ->
  _parse_sol_content_threaded fs file_path stop n = Ret [o] ->
  no_adjacent_strings (parsed_data o) = true.
Proof.
  intros Hfs Hrun. rewrite (threaded_read _ _ _ _ _ Hfs) in Hrun. injection Hrun as <-.
  assert (Hfull : no_adjacent_strings (parsed_data (scan data n never)) = true).
  { rewrite scan_never. apply no_adjacent_strings_scanner. }
  destruct (scan_cases data n stop) as [E|(fpd & E & [k Hk])]; rewrite E; [exact Hfull|].
  cbn [parsed_data]. rewrite Hk in Hfull. exact (no_adjacent_strings_prefix _ _ Hfull).
Qed.

End Alternation.

Lemma strings_never_adjacent_witness :
  no_adjacent_strings (parsed_data (scan ex_data default_max_bytes stop_after_first)) = true.
Proof.
  apply (strings_never_adjacent ex_fs "sol" ex_data default_max_bytes stop_after_first);
    vm_compute; reflexivity.
Defined.

(** ** When the stop event is seen *)

Section Polls.

Variable data : bytes.

(** The loop runs through exactly when the event is clear at each poll,
    one poll per match. *)
Lemma scan_loop_inl_iff (stop : nat -> bool) (ms : list (nat * nat)) (k0 : nat)
    (st : scan_state) :
  (exists st', scan_loop data stop k0 ms st = inl st')
  <-> (forall k, k < length ms -> stop (k0 + k) = false).
Proof.
  revert k0 st. induction ms as [|m ms IH]; intros k0 st; cbn [scan_loop length].
  - split; [intros _ k Hk; lia|intros _; eexists; reflexivity].
  - destruct (stop k0) eqn:Hs.
    + split; [intros [st' H]; discriminate|].
      intros H. specialize (H 0 ltac:(lia)). rewrite Nat.add_0_r in H. congruence.
    + rewrite IH. split.
      * intros H [|k] Hk; [rewrite Nat.add_0_r; exact Hs|].
        replace (k0 + S k) with (S k0 + k) by lia. apply H. lia.
      * intros H k Hk. replace (S k0 + k) with (k0 + S k) by lia. apply H. lia.
Qed.

Lemma scan_loop_inr_status (stop : nat -> bool) (ms : list (nat * nat)) (k0 : nat)
    (st : scan_state) (o : outcome) :
  scan_loop data stop k0 ms st = inr o -> status_message o = "Interrupted".
Proof.
  revert k0 st. induction ms as [|m ms IH]; intros k0 st; cbn [scan_loop]; [discriminate|].
  destruct (stop k0); [|apply IH]. intros H. injection H as <-. reflexivity.
Qed.

(** A match of the pattern leaves a String item at the end of the list. *)
Lemma scan_step_ends_with_string (st : scan_state) (m : nat * nat) :
  valid_match data m ->
  exists fpd s, final_parsed_data (scan_step data st m) = fpd ++ [("String", s)].
Proof.
  destruct m as [a b]. intros (Hab & Hb & Hp). cbn [fst snd] in Hab, Hb, Hp.
  unfold scan_step. cbn [final_parsed_data].
  rewrite (decode_printable _ Hp), truthy_string_of_list_byte.
  - eexists _, _. reflexivity.
  - unfold slice. rewrite length_take, length_drop. lia.
Qed.

Lemma scan_loop_interrupted_shape (stop : nat -> bool) (ms : list (nat * nat)) (k0 : nat)
    (st : scan_state) (o : outcome) :
  Forall (valid_match data) ms ->
  scan_loop data stop k0 ms st = inr o ->
  parsed_data o = final_parsed_data st
  \/ exists fpd s, parsed_data o = fpd ++ [("String", s)].
Proof.
  intros Hms. revert k0 st. induction Hms as [|m ms Hm _ IH]; intros k0 st;
    cbn [scan_loop]; [discriminate|].
  destruct (stop k0).
  - intros H. injection H as <-. left. reflexivity.
  - intros H. destruct (IH _ _ H) as [E|E]; [|right; exact E].
    right. rewrite E. apply scan_step_ends_with_string, Hm.
Qed.

End Polls.

Section MatchesValid.

(** Every match [finditer] reports is a run of at least two printable bytes
    inside the buffer. *)
Lemma finditer_from_valid (n : nat) :
  forall (l : bytes), length l = n ->
  forall (pre : bytes),
  Forall (valid_match (pre ++ l)) (finditer_from (length pre) 0 l).
Proof.
  induction n as [n IH] using lt_wf_ind. intros l Hlen pre.
  destruct l as [|b l]; [constructor|].
  destruct (le_lt_dec 2 (span_printable (b :: l))) as [Hm|Hm].
  - rewrite (finditer_from_match _ _ Hm).
    set (k := span_printable (b :: l)) in *.
    pose proof (span_printable_le (b :: l)) as Hle. fold k in Hle.
    assert (Hsplit : pre ++ b :: l = (pre ++ take k (b :: l)) ++ drop k (b :: l))
      by (rewrite <- app_assoc, take_drop; reflexivity).
    assert (Hpre : length (pre ++ take k (b :: l)) = length pre + k)
      by (rewrite length_app, length_take; lia).
    constructor.
    + unfold valid_match, slice. cbn [fst snd]. split; [lia|]. split.
      * rewrite length_app. lia.
      * rewrite drop_app_length.
        replace (length pre + k - length pre) with k by lia.
        apply span_printable_take.
    + assert (Hlt : length (drop k (b :: l)) < n) by (rewrite length_drop; lia).
      pose proof (IH _ Hlt (drop k (b :: l)) eq_refl (pre ++ take k (b :: l))) as H.
      rewrite <- Hsplit, Hpre in H. exact H.
  - rewrite (finditer_from_no_match _ _ _ Hm).
    assert (Hlt : length l < n) by (cbn in Hlen; lia).
    pose proof (IH _ Hlt l eq_refl (pre ++ [b])) as H.
    rewrite <- app_assoc, length_app in H. cbn [app length] in H.
    replace (length pre + 1) with (S (length pre)) in H by lia. exact H.
Qed.

Lemma finditer_valid (data : bytes) : Forall (valid_match data) (finditer data).
Proof. exact (finditer_from_valid _ data eq_refl []). Qed.

Lemma finditer_no_double (l : bytes) (pos : nat) :
  no_double_printable l = true -> finditer_from pos 0 l = [].
Proof.
  revert pos. induction l as [|a l IH]; intros pos H; [reflexivity|].
  assert (Hspan : span_printable (a :: l) < 2).
  { destruct l as [|b l]; cbn; [destruct (printable a); lia|].
    cbn in H. destruct (printable a); [|lia].
    destruct (printable b); [discriminate|lia]. }
  rewrite (finditer_from_no_match _ _ _ Hspan). apply IH.
  destruct l as [|b l]; [reflexivity|].
  change (negb (printable a && printable b) && no_double_printable (b :: l) = true) in H.
  apply andb_true_iff in H. apply H.
Qed.

Lemma tokens_spec_no_double (l : bytes) :
  no_double_printable l = true -> tokens_spec l = map byte_item l.
Proof.
  induction l as [|a l IH]; intros H; [reflexivity|].
  assert (Hspan : span_printable (a :: l) < 2).
  { destruct l as [|b l]; cbn; [destruct (printable a); lia|].
    cbn in H. destruct (printable a); [|lia].
    destruct (printable b); [discriminate|lia]. }
  rewrite (tokens_spec_no_match _ _ Hspan). cbn [map]. f_equal. apply IH.
  destruct l as [|b l]; [reflexivity|].
  change (negb (printable a && printable b) && no_double_printable (b :: l) = true) in H.
  apply andb_true_iff in H. apply H.
Qed.

End MatchesValid.

Section PollClaims.

(** X3.  The outcome is complete exactly when the stop event is clear at each
    of the first [m] polls, [m] being the number of matches of the pattern in
    the truncated buffer: the event is read once per match and nowhere else. *)
Theorem complete_iff_polls_clear (fs : string -> exc bytes) (file_path : string)
    (data : bytes) (n : Z) (stop : nat -> bool) (o : outcome) :
  fs file_path = Ret data ->
  _parse_sol_content_threaded fs file_path stop n = Ret [o] ->
  (status_message o = "Complete"
   <-> forall k, k < length (finditer (slice_to data n)) -> stop k = false).
Proof.
  intros Hfs Hrun. rewrite (threaded_read _ _ _ _ _ Hfs) in Hrun. injection Hrun as <-.
  rewrite <- (scan_loop_inl_iff (slice_to data n) stop (finditer (slice_to data n)) 0
                (ScanState [] 0)).
  unfold scan.
  destruct (scan_loop (slice_to data n) stop 0 (finditer (slice_to data n)) (ScanState [] 0))
    as [st|o'] eqn:E.
  - split; [intros _; eexists; reflexivity|intros _; reflexivity].
  - rewrite (scan_loop_inr_status _ _ _ _ _ _ E).
    split; [discriminate|intros [st' H]; discriminate].
Qed.

(** X4.  A truncated buffer without two adjacent printable bytes is always
    tokenized completely, one Byte item per byte: there is no match, so the
    stop event is not read at all. *)
Theorem no_run_ignores_stop (fs : string -> exc bytes) (file_path : string)
    (data : bytes) (n : Z) (stop : nat -> bool) :
  fs file_path = Ret data ->
  no_double_printable (slice_to data n) = true ->
  _parse_sol_content_threaded fs file_path stop n
  = Ret [Outcome (map byte_item (slice_to data n)) false "Complete"].
Proof.
  intros Hfs Hnd. rewrite (threaded_read _ _ _ _ _ Hfs). f_equal. f_equal.
  assert (E : scan data n stop = scan data n never).
  { unfold scan, finditer. rewrite (finditer_no_double _ 0 Hnd). reflexivity. }
  rewrite E, scan_never, (tokens_spec_no_double _ Hnd). reflexivity.
Qed.

(** X5.  An interrupted outcome holds no item or ends with a String item:
    the Byte items that precede the match at which the stop event was seen
    are not delivered. *)
Theorem interrupted_ends_with_string (fs : string -> exc bytes) (file_path : string)
    (data : bytes) (n : Z) (stop : nat -> bool) (o : outcome) :
  fs file_path = Ret data ->
  _parse_sol_content_threaded fs file_path stop n = Ret [o] ->
  status_message o = "Interrupted" ->
  parsed_data o = [] \/ exists fpd s, parsed_data o = fpd ++ [("String", s)].
Proof.
  intros Hfs Hrun Hst. rewrite (threaded_read _ _ _ _ _ Hfs) in Hrun. injection Hrun as <-.
  unfold scan in Hst |- *.
  destruct (scan_loop (slice_to data n) stop 0 (finditer (slice_to data n)) (ScanState [] 0))
    as [st|o'] eqn:E; [cbn in Hst; discriminate|].
  exact (scan_loop_interrupted_shape _ _ _ _ _ _ (finditer_valid _) E).
Qed.

(** X6.  A truncated buffer of two or more bytes, all printable, gives one
    String item holding the whole text, provided the stop event is clear at
    the single poll. *)
Theorem all_printable_single_string (fs : string -> exc bytes) (file_path : string)
    (data : bytes) (n : Z) (stop : nat -> bool) :
  fs file_path = Ret data ->
  Forall (fun b => printable b = true) (slice_to data n) ->
  2 <= length (slice_to data n) ->
  stop 0 = false ->
  _parse_sol_content_threaded fs file_path stop n
  = Ret [Outcome [("String", string_of_list_byte (slice_to data n))] false "Complete"].
Proof.
  intros Hfs Hp Hlen Hstop. pose proof (threaded_read _ _ _ stop n Hfs) as Hrun.
  rewrite Hrun. f_equal. f_equal.
  assert (Hspan : span_printable (slice_to data n) = length (slice_to data n)).
  { rewrite <- (app_nil_r (slice_to data n)) at 1. apply span_printable_all; [exact Hp|reflexivity]. }
  assert (Hms : finditer (slice_to data n) = [(0, length (slice_to data n))]).
  { unfold finditer. rewrite finditer_from_match by lia.
    rewrite Hspan, drop_all. reflexivity. }
  assert (Hc : status_message (scan data n stop) = "Complete").
  { destruct (proj2 (scan_loop_inl_iff (slice_to data n) stop
                       (finditer (slice_to data n)) 0 (ScanState [] 0))) as [st' E].
    - rewrite Hms. intros [|k] Hk; [exact Hstop|cbn in Hk; lia].
    - unfold scan. rewrite E. reflexivity. }
  rewrite (scan_complete _ _ _ Hc), scan_never. f_equal.
  unfold tokens_spec. rewrite (scanner_run [] _ Hp). cbn [app].
  destruct (slice_to data n) as [|x [|y l]]; cbn in Hlen; try lia. reflexivity.
Qed.

End PollClaims.

Lemma complete_iff_polls_clear_witness :
  status_message (scan ex_data default_max_bytes stop_after_first) = "Complete"
  <-> forall k, k < length (finditer (slice_to ex_data default_max_bytes)) ->
                stop_after_first k = false.
Proof.
  apply (complete_iff_polls_clear ex_fs "sol" ex_data default_max_bytes stop_after_first);
    vm_compute; reflexivity.
Defined.

Lemma no_run_ignores_stop_witness :
  _parse_sol_content_threaded (fun _ => Ret [x00; x41; x06; x42]) "sol" (fun _ => true) 3
  = Ret [Outcome (map byte_item (slice_to [x00; x41; x06; x42] 3)) false "Complete"].
Proof.
  apply (no_run_ignores_stop (fun _ => Ret [x00; x41; x06; x42]) "sol"); reflexivity.
Defined.

Lemma interrupted_ends_with_string_witness :
  parsed_data (scan ex_data default_max_bytes stop_after_first) = []
  \/ exists fpd s,
       parsed_data (scan ex_data default_max_bytes stop_after_first) = fpd ++ [("String", s)].
Proof.
  apply (interrupted_ends_with_string ex_fs "sol" ex_data default_max_bytes stop_after_first);
    vm_compute; reflexivity.
Defined.

Lemma all_printable_single_string_witness :
  _parse_sol_content_threaded ex_fs "sol" stop_after_first 2
  = Ret [Outcome [("String", string_of_list_byte (slice_to ex_data 2))] false "Complete"].
Proof.
  apply (all_printable_single_string ex_fs "sol" ex_data 2 stop_after_first);
    [reflexivity| |vm_compute; lia|reflexivity].
  repeat constructor.
Defined.

(** ** What the caller of the harness sees *)

Section HarnessShape.

Variables (fs : string -> exc bytes) (file_path timeout_repr : string) (n : Z)
          (stop : nat -> bool).

Lemma threaded_outcome_shape (o : outcome) :
  _parse_sol_content_threaded fs file_path stop n = Ret [o] ->
  parsed_outcome o \/ failed_outcome o.
Proof.
  intros Hrun. destruct (fs file_path) as [data|e] eqn:Hfs.
  - left. rewrite (threaded_read _ _ _ _ _ Hfs) in Hrun. injection Hrun as <-.
    assert (Hfull : Forall (fun t => well_formed t = true)
                      (parsed_data (scan data n never))).
    { rewrite scan_never. apply well_formed_scanner. constructor. }
    destruct (scan_cases data n stop) as [E|(fpd & E & [k Hk])]; rewrite E.
    + split; [|exact Hfull]. left. rewrite scan_never. split; reflexivity.
    + split; [right; split; reflexivity|]. cbn [parsed_data].
      rewrite Hk in Hfull. apply Forall_app in Hfull. apply Hfull.
  - right. unfold _parse_sol_content_threaded, try_body in Hrun. rewrite Hfs in Hrun.
    injection Hrun as <-. split; [left; reflexivity|]. split; [reflexivity|].
    eexists. reflexivity.
Qed.

(** X7.  Whatever the file system, the stop event and the wait on the queue
    do, the outcome returned is of one of two shapes: a parsed outcome
    (status "Complete" with the incomplete flag down, or "Interrupted" with
    the flag up, and well-formed Byte and String items only), or a failed one
    (status "Error" or "Timed Out", flag up, exactly one "Error" item). *)
Theorem harness_outcome_shape (w : wait) :
  parsed_outcome
    (returned (parse_sol_content_with_timeout fs file_path timeout_repr n stop w))
  \/ failed_outcome
       (returned (parse_sol_content_with_timeout fs file_path timeout_repr n stop w)).
Proof.
  unfold parse_sol_content_with_timeout.
  destruct (threaded_puts_one fs file_path stop n) as [o Ho]. rewrite Ho.
  destruct w as [| |e]; cbn [returned].
  - apply threaded_outcome_shape, Ho.
  - right. split; [right; reflexivity|]. split; [reflexivity|]. eexists. reflexivity.
  - right. split; [left; reflexivity|]. split; [reflexivity|]. eexists. reflexivity.
Qed.

(** X8.  The worker always leaves exactly one item on the queue, and a caller
    whose wait is served returns that item unchanged without setting the stop
    event; the stop event is set exactly when the wait was not served. *)
Theorem delivered_verbatim :
  exists o,
    _parse_sol_content_threaded fs file_path stop n = Ret [o]
    /\ parse_sol_content_with_timeout fs file_path timeout_repr n stop Delivered
       = CallResult o false
    /\ forall w,
         sets_stop_event
           (parse_sol_content_with_timeout fs file_path timeout_repr n stop w) = true
         <-> w <> Delivered.
Proof.
  destruct (threaded_puts_one fs file_path stop n) as [o Ho]. exists o.
  split; [exact Ho|]. unfold parse_sol_content_with_timeout. rewrite Ho.
  split; [reflexivity|].
  intros [| |e]; cbn [sets_stop_event]; split; congruence.
Qed.

End HarnessShape.

(** ** Cleaning *)

Section Cleaning.

Lemma contains_remove_nul (s : string) : nul_free (remove_nul s) = true.
Proof.
  unfold nul_free. induction s as [|c s IH]; [reflexivity|]. cbn [remove_nul].
  destruct (N.eqb_spec (N_of_ascii c) 0) as [E|E]; [exact IH|].
  cbn [contains]. destruct (Ascii.eqb_spec c zero) as [->|_]; [|exact IH].
  exfalso. apply E. reflexivity.
Qed.

Lemma remove_nul_id (s : string) : nul_free s = true -> remove_nul s = s.
Proof.
  unfold nul_free. induction s as [|c s IH]; [reflexivity|]. cbn [contains remove_nul].
  intros H. apply negb_true_iff, orb_false_iff in H as [Hc Hs].
  destruct (N.eqb_spec (N_of_ascii c) 0) as [E|E].
  - apply (f_equal ascii_of_N) in E. rewrite ascii_N_embedding in E. subst c.
    discriminate.
  - rewrite IH; [reflexivity|]. rewrite Hs. reflexivity.
Qed.

Lemma nul_free_lstrip (s : string) : nul_free s = true -> nul_free (lstrip s) = true.
Proof.
  unfold nul_free. induction s as [|c s IH]; [reflexivity|]. cbn [lstrip].
  destruct (is_space c); [|tauto]. cbn [contains]. intros H.
  apply negb_true_iff, orb_false_iff in H as [_ Hs]. apply IH. rewrite Hs. reflexivity.
Qed.

Lemma nul_free_rstrip (s : string) : nul_free s = true -> nul_free (rstrip s) = true.
Proof.
  unfold nul_free. induction s as [|c s IH]; [reflexivity|]. cbn [rstrip contains].
  intros H. apply negb_true_iff, orb_false_iff in H as [Hc Hs].
  destruct (is_space c && negb (truthy (rstrip s))); [reflexivity|].
  cbn [contains]. rewrite Hc. apply IH. rewrite Hs. reflexivity.
Qed.

Lemma first_char_lstrip (s : string) (c : ascii) :
  first_char (lstrip s) = Some c -> is_space c = false.
Proof.
  induction s as [|d s IH]; [discriminate|]. cbn [lstrip].
  destruct (is_space d) eqn:Hd; [exact IH|]. cbn. congruence.
Qed.

Lemma lstrip_id (s : string) :
  match first_char s with Some c => is_space c = false | None => True end ->
  lstrip s = s.
Proof. destruct s as [|c s]; [reflexivity|]. cbn. intros ->. reflexivity. Qed.

Lemma first_char_rstrip (s : string) (c : ascii) :
  first_char s = Some c -> is_space c = false -> first_char (rstrip s) = Some c.
Proof.
  destruct s as [|d s]; [discriminate|]. cbn [first_char rstrip]. intros [= ->] ->.
  reflexivity.
Qed.

Lemma first_char_of_rstrip (s : string) (c : ascii) :
  first_char (rstrip s) = Some c -> first_char s = Some c.
Proof.
  destruct s as [|d s]; [discriminate|]. cbn [first_char rstrip].
  destruct (is_space d && negb (truthy (rstrip s))); [discriminate|]. tauto.
Qed.

Lemma last_char_rstrip (s : string) (c : ascii) :
  last_char (rstrip s) = Some c -> is_space c = false.
Proof.
  induction s as [|d s IH]; [discriminate|]. cbn [rstrip].
  destruct (is_space d) eqn:Hd; cbn [andb].
  - destruct (rstrip s) as [|e r] eqn:Hr; cbn [truthy negb]; [discriminate|].
    assert (Hx : exists x, last_char (String e r) = Some x)
      by (cbn [last_char]; destruct (last_char r); eauto).
    destruct Hx as [x Hx].
    change (last_char (String d (String e r)))
      with (match last_char (String e r) with Some y => Some y | None => Some d end).
    rewrite Hx. intros [= <-]. apply IH, Hx.
  - change (last_char (String d (rstrip s)))
      with (match last_char (rstrip s) with Some y => Some y | None => Some d end).
    destruct (last_char (rstrip s)) as [x|] eqn:Hl.
    + intros [= <-]. apply IH. reflexivity.
    + intros [= <-]. exact Hd.
Qed.

Lemma rstrip_id (s : string) :
  match last_char s with Some c => is_space c = false | None => True end ->
  rstrip s = s.
Proof.
  induction s as [|d s IH]; [reflexivity|]. cbn [last_char rstrip].
  destruct (last_char s) as [x|] eqn:Hl.
  - intros H. rewrite (IH H). destruct s as [|e s]; [discriminate|].
    cbn [truthy negb]. rewrite andb_false_r. reflexivity.
  - intros H. rewrite H. cbn [andb]. rewrite IH by exact I. reflexivity.
Qed.

Lemma stripped_strip (s : string) : stripped (strip s) = true.
Proof.
  unfold stripped, strip. apply andb_true_iff. split.
  - destruct (first_char (rstrip (lstrip s))) as [c|] eqn:Hc; [|reflexivity].
    apply first_char_of_rstrip, first_char_lstrip in Hc. rewrite Hc. reflexivity.
  - destruct (last_char (rstrip (lstrip s))) as [c|] eqn:Hc; [|reflexivity].
    apply last_char_rstrip in Hc. rewrite Hc. reflexivity.
Qed.

Lemma strip_id (s : string) : stripped s = true -> strip s = s.
Proof.
  unfold stripped, strip. intros H. apply andb_true_iff in H as [H1 H2].
  rewrite lstrip_id.
  - apply rstrip_id. destruct (last_char s); [|exact I].
    apply negb_true_iff. exact H2.
  - destruct (first_char s); [|exact I]. apply negb_true_iff. exact H1.
Qed.

Lemma nul_free_clean_string (s : string) : nul_free (clean_string s) = true.
Proof.
  unfold clean_string, strip. apply nul_free_rstrip, nul_free_lstrip, contains_remove_nul.
Qed.

(** X9.  [clean_string] returns a string without NUL whose first and last
    characters are not white space, and cleaning a cleaned string changes
    nothing. *)
Theorem clean_string_clean (s : string) :
  nul_free (clean_string s) = true
  /\ stripped (clean_string s) = true
  /\ clean_string (clean_string s) = clean_string s.
Proof.
  pose proof (nul_free_clean_string s) as Hn.
  assert (Hs : stripped (clean_string s) = true) by apply stripped_strip.
  split; [exact Hn|]. split; [exact Hs|].
  unfold clean_string at 1. rewrite (remove_nul_id _ Hn). apply strip_id, Hs.
Qed.

End Cleaning.

(** ** More on the extraction loop *)

Section ExtractorEdges.

Lemma token_eqb_eq (a b : token) : token_eqb a b = true -> a = b.
Proof.
  destruct a as [a1 a2], b as [b1 b2]. unfold token_eqb. cbn [fst snd].
  intros H. apply andb_true_iff in H as [H1 H2].
  apply String.eqb_eq in H1, H2. congruence.
Qed.

Lemma motif_value_short (label : string) (content : list token) (i : nat) :
  length content < 4 -> motif_value label content i = None.
Proof.
  intros Hlen. unfold motif_value.
  assert (Hd : length (drop i content) < 4) by (rewrite length_drop; lia).
  destruct (drop i content) as [|a [|b [|c [|d r]]]]; try reflexivity.
  - destruct (token_eqb a ("String", label) && token_eqb b ("Byte", "0x06")); reflexivity.
  - destruct (token_eqb a ("String", label) && token_eqb b ("Byte", "0x06")); reflexivity.
  - cbn in Hd. lia.
Qed.

Lemma motif_value_label (label : string) (content : list token) (i : nat) (v : string) :
  motif_value label content i = Some v -> content !! i = Some ("String", label).
Proof.
  unfold motif_value. intros H.
  assert (Hi : content !! i = head (drop i content)).
  { rewrite <- (Nat.add_0_r i) at 1. rewrite <- lookup_drop.
    destruct (drop i content); reflexivity. }
  transitivity (head (drop i content)); [exact Hi|]. clear Hi.
  destruct (drop i content) as [|a [|b r]]; try discriminate.
  destruct (token_eqb a ("String", label)) eqn:Ha; [|discriminate].
  apply token_eqb_eq in Ha. rewrite Ha. reflexivity.
Qed.

Lemma candidate_label (label : string) (content : list token) (i : nat) (c : string) :
  candidate label content i = Some c -> ("String", label) ∈ content.
Proof.
  unfold candidate. destruct (motif_value label content i) as [v|] eqn:Hv; [|discriminate].
  intros _. apply motif_value_label in Hv. eapply list_elem_of_lookup_2, Hv.
Qed.

Lemma candidate_short (label : string) (content : list token) (i : nat) :
  length content < 4 -> candidate label content i = None.
Proof. intros Hlen. unfold candidate. rewrite motif_value_short by exact Hlen. reflexivity. Qed.

Lemma accepted_email_short (content : list token) (i : nat) :
  length content < 4 -> accepted_email content i = None.
Proof. intros Hlen. unfold accepted_email. rewrite candidate_short by exact Hlen. reflexivity. Qed.

(** X10.  A content of fewer than four items gives "Not found" for both
    fields: the shortest motif needs the label and three more items. *)
Theorem short_content_not_found (content : list token) :
  length content < 4 ->
  extract_fields content = ("Not found", "Not found").
Proof.
  intros Hlen. unfold extract_fields. rewrite extract_from_spec.
  rewrite !keep_last_none; [reflexivity| |]; intros j _.
  - apply candidate_short, Hlen.
  - apply accepted_email_short, Hlen.
Qed.

(** X11.  Whatever a call of the harness returns with the status "Error" or
    "Timed Out", the extraction on its items gives "Not found" for both
    fields. *)
Theorem failed_parse_not_found (fs : string -> exc bytes) (file_path timeout_repr : string)
    (n : Z) (stop : nat -> bool) (w : wait) :
  status_message
    (returned (parse_sol_content_with_timeout fs file_path timeout_repr n stop w)) = "Error"
  \/ status_message
       (returned (parse_sol_content_with_timeout fs file_path timeout_repr n stop w))
     = "Timed Out" ->
  extract_fields
    (parsed_data (returned (parse_sol_content_with_timeout fs file_path timeout_repr n stop w)))
  = ("Not found", "Not found").
Proof.
  intros Hst.
  assert (Hone : exists msg,
            parsed_data (returned (parse_sol_content_with_timeout
                                     fs file_path timeout_repr n stop w))
            = [("Error", msg)]).
  { unfold parse_sol_content_with_timeout in Hst |- *.
    destruct (threaded_puts_one fs file_path stop n) as [o Ho]. rewrite Ho in Hst |- *.
    destruct w as [| |e]; cbn [returned] in Hst |- *; [|eexists; reflexivity..].
    destruct (threaded_outcome_shape fs file_path n stop o Ho)
      as [[[[H _]|[H _]] _]|(_ & _ & Hmsg)]; [| |exact Hmsg];
      rewrite H in Hst; destruct Hst; discriminate. }
  destruct Hone as [msg ->]. unfold extract_fields. rewrite extract_from_spec.
  rewrite !keep_last_none; [reflexivity| |]; intros j _.
  - apply candidate_short. cbn. lia.
  - apply accepted_email_short. cbn. lia.
Qed.

(** X12.  Without an item [("String", "Password")] the password is
    "Not found", and without an item [("String", "Email")] the email is. *)
Theorem no_label_not_found (content : list token) :
  (("String", "Password") ∉ content -> extracted_password content = "Not found")
  /\ (("String", "Email") ∉ content -> extracted_email content = "Not found").
Proof.
  unfold extracted_password, extracted_email, extract_fields.
  rewrite extract_from_spec. cbn [fst snd]. split; intros Hno; apply keep_last_none; intros j _.
  - destruct (candidate "Password" content j) as [c|] eqn:Hc; [|reflexivity].
    exfalso. apply Hno. eapply candidate_label, Hc.
  - unfold accepted_email.
    destruct (candidate "Email" content j) as [c|] eqn:Hc; [|reflexivity].
    exfalso. apply Hno. eapply candidate_label, Hc.
Qed.

Lemma sub_leading_nonword_shape (s : string) :
  starts_with_word (sub_leading_nonword s) = true
  /\ (nul_free s = true -> nul_free (sub_leading_nonword s) = true)
  /\ (forall c, last_char (sub_leading_nonword s) = Some c -> last_char s = Some c).
Proof.
  induction s as [|d s (IH1 & IH2 & IH3)]; [repeat split; intros; assumption|].
  cbn [sub_leading_nonword]. destruct (is_word d) eqn:Hd.
  - split; [cbn; exact Hd|]. split; intros; assumption.
  - split; [exact IH1|]. split.
    + unfold nul_free in *. cbn [contains]. intros H.
      apply negb_true_iff, orb_false_iff in H as [_ Hs]. apply IH2. rewrite Hs. reflexivity.
    + intros c Hc. apply IH3 in Hc.
      change (last_char (String d s))
        with (match last_char s with Some y => Some y | None => Some d end).
      rewrite Hc. reflexivity.
Qed.

(** X13.  The password returned is the sentinel "Not found" or a cleaned
    value: without NUL, empty or starting with a word character, and not
    ending with white space.  (It can be the empty string.) *)
Theorem password_cleaned (content : list token) :
  extracted_password content = "Not found"
  \/ (nul_free (extracted_password content) = true
      /\ starts_with_word (extracted_password content) = true
      /\ forall c, last_char (extracted_password content) = Some c -> is_space c = false).
Proof.
  unfold extracted_password, extract_fields. rewrite extract_from_spec. cbn [snd].
  destruct (keep_last_origin (candidate "Password" content) (seq 0 (length content))
              "Not found") as [H|(i & _ & H)]; [left; exact H|].
  right. set (r := keep_last _ _ _) in *. unfold candidate in H.
  destruct (motif_value "Password" content i) as [v|]; [|discriminate].
  injection H as H. rewrite <- H.
  destruct (sub_leading_nonword_shape (clean_string v)) as (H1 & H2 & H3).
  pose proof (nul_free_clean_string v) as Hn.
  pose proof (stripped_strip (remove_nul v)) as Hs. fold (clean_string v) in Hs.
  split; [exact (H2 Hn)|]. split; [exact H1|].
  intros c Hc. apply H3 in Hc. unfold stripped in Hs. rewrite Hc in Hs.
  apply andb_true_iff in Hs as [_ Hs]. apply negb_true_iff. exact Hs.
Qed.

End ExtractorEdges.

Lemma short_content_not_found_witness :
  extract_fields [("String", "Password"); ("Byte", "0x06"); ("String", "abc")]
  = ("Not found", "Not found").
Proof. apply short_content_not_found. cbn. lia. Defined.

Lemma failed_parse_not_found_witness :
  extract_fields
    (parsed_data (returned (parse_sol_content_with_timeout ex_fs "sol" "5.0"
                              default_max_bytes never Elapsed)))
  = ("Not found", "Not found").
Proof.
  apply (failed_parse_not_found ex_fs "sol" "5.0" default_max_bytes never Elapsed).
  right. reflexivity.
Defined.

Lemma no_label_not_found_witness :
  extracted_password two_emails = "Not found" /\ extracted_email two_passwords = "Not found".
Proof.
  split.
  - apply (proj1 (no_label_not_found two_emails)). intros H.
    repeat (apply elem_of_cons in H as [H|H]; [discriminate|]). inversion H.
  - apply (proj2 (no_label_not_found two_passwords)). intros H.
    repeat (apply elem_of_cons in H as [H|H]; [discriminate|]). inversion H.
Defined.

(** ** Fitting a label into a width *)

Section TruncateProperties.

Variable width : string -> Z.
Variable text : string.
Variable max_width : Z.

Lemma str_slice_to_nonneg (k : Z) :
  (0 <= k)%Z -> str_slice_to text k = str_take (Z.to_nat k) text.
Proof. intros H. unfold str_slice_to. destruct (Z.leb_spec 0 k); [reflexivity|lia]. Qed.

Lemma truthy_probe (k : nat) : truthy (probe text k) = true.
Proof. unfold probe. destruct (str_take k text); reflexivity. Qed.

Lemma mid_bounds (l r : Z) : (l <= r)%Z -> (l <= (l + r) / 2 <= r)%Z.
Proof.
  intros H. split; [apply Z.div_le_lower_bound|apply Z.div_le_upper_bound]; lia.
Qed.

Lemma truncate_loop_fitting (l r : Z) (best : string) :
  (0 <= l)%Z -> (r <= Z.of_nat (String.length text))%Z ->
  fitting_probe width text max_width best ->
  fitting_probe width text max_width (truncate_loop width text max_width l r best).
Proof.
  funelim (truncate_loop width text max_width l r best); intros Hl Hr Hbest.
  - pose proof (mid_bounds _ _ l) as Hmid.
    cbv zeta. destruct (Z.leb_spec (width (str_slice_to text ((left_ + right_) / 2) +:+ "..."))
                          max_width) as [Hfit|Hfit].
    + apply H; [lia|lia|]. right. exists (Z.to_nat ((left_ + right_) / 2)).
      split; [lia|]. rewrite str_slice_to_nonneg in * by lia. split; [reflexivity|exact Hfit].
    + apply H0; [lia|lia|exact Hbest].
  - exact Hbest.
Qed.

(** X14.  [truncate_text] returns the text itself when it fits, and otherwise
    a prefix of the text followed by "..."; that result fits the width unless
    it is the bare "...", which is returned when no probe fitted. *)
Theorem truncate_text_shape :
  ((width text <= max_width)%Z /\ truncate_text width text max_width = text)
  \/ ((max_width < width text)%Z
      /\ exists k,
           k <= String.length text
           /\ truncate_text width text max_width = probe text k
           /\ ((width (truncate_text width text max_width) <= max_width)%Z \/ k = 0)).
Proof.
  unfold truncate_text. destruct (Z.leb_spec (width text) max_width) as [Hfit|Hfit].
  - left. split; [exact Hfit|reflexivity].
  - right. split; [exact Hfit|]. cbv zeta.
    destruct (truncate_loop_fitting 0 (Z.of_nat (String.length text)) ""
                ltac:(lia) ltac:(lia) (or_introl eq_refl)) as [E|(k & Hk & E & Hw)].
    + rewrite E. exists 0. split; [lia|]. split; [reflexivity|right; reflexivity].
    + rewrite E in Hw |- *. rewrite truthy_probe. exists k.
      split; [exact Hk|]. split; [reflexivity|left; exact Hw].
Qed.

(** The widths of the probes grow with the prefix. *)
Hypothesis width_monotone : forall i j,
  i <= j -> j <= String.length text ->
  (width (probe text i) <= width (probe text j))%Z.

Lemma truncate_loop_search (l r : Z) (best : string) :
  search_invariant width text max_width l r best ->
  search_result width text max_width (truncate_loop width text max_width l r best).
Proof.
  funelim (truncate_loop width text max_width l r best);
    intros (Hl & Hr & Hlr & Hbelow & Habove & Hbest).
  - pose proof (mid_bounds _ _ l) as Hmid. cbv zeta.
    set (mid := ((left_ + right_) / 2)%Z) in *.
    assert (Hprobe : str_slice_to text mid +:+ "..." = probe text (Z.to_nat mid))
      by (rewrite str_slice_to_nonneg by lia; reflexivity).
    rewrite Hprobe in *.
    destruct (Z.leb_spec (width (probe text (Z.to_nat mid))) max_width) as [Hfit|Hfit].
    + apply H. repeat split; try lia.
      * intros j Hj. etransitivity; [|exact Hfit].
        apply width_monotone; lia.
      * exact Habove.
      * right. split; [lia|]. f_equal. lia.
    + apply H0. repeat split; try lia.
      * exact Hbelow.
      * intros j Hj Hjlen. eapply Z.lt_le_trans; [exact Hfit|].
        apply width_monotone; lia.
      * exact Hbest.
  - exists (Z.to_nat left_). split; [lia|]. split; [|split].
    + intros j Hj. apply Hbelow. lia.
    + intros j Hj Hjlen. apply Habove; [lia|exact Hjlen].
    + destruct Hbest as [[-> ->]|[H0 ->]]; [left; split; reflexivity|].
      right. split; [lia|]. f_equal. lia.
Qed.

(** X15.  When the widths of the probes grow with the prefix length and the
    text does not fit, [truncate_text] returns the longest probe that fits:
    the probe of [k] characters fits and no probe of more characters does;
    when not even the bare "..." fits, it returns "..." all the same. *)
Theorem truncate_text_longest :
  (max_width < width text)%Z ->
  exists k,
    k <= String.length text
    /\ truncate_text width text max_width = probe text k
    /\ (forall j, k < j -> j <= String.length text ->
                  (max_width < width (probe text j))%Z)
    /\ ((width (probe text k) <= max_width)%Z
        \/ (k = 0 /\ (max_width < width (probe text 0))%Z)).
Proof.
  intros Hbig. unfold truncate_text. destruct (Z.leb_spec (width text) max_width); [lia|].
  cbv zeta.
  destruct (truncate_loop_search 0 (Z.of_nat (String.length text)) "")
    as (k & Hk & Hbelow & Habove & [[-> E]|[Hpos E]]).
  { repeat split; try lia. left. split; reflexivity. }
  - rewrite E. exists 0. split; [lia|]. split; [reflexivity|]. split.
    + intros j Hj Hjlen. apply Habove; [lia|exact Hjlen].
    + right. split; [reflexivity|]. apply Habove; lia.
  - rewrite E, truthy_probe. exists (k - 1). split; [lia|]. split; [reflexivity|]. split.
    + intros j Hj Hjlen. apply Habove; [lia|exact Hjlen].
    + left. apply Hbelow. lia.
Qed.

End TruncateProperties.

Lemma seven_wide_monotone (text : string) (i j : nat) :
  i <= j -> j <= String.length text ->
  (seven_wide (probe text i) <= seven_wide (probe text j))%Z.
Proof.
  intros Hij Hj. unfold seven_wide, probe.
  assert (Hlen : forall k s, k <= String.length s ->
            String.length (str_take k s +:+ "...") = k + 3).
  { induction k as [|k IH]; intros s Hk; [reflexivity|].
    destruct s as [|c s]; cbn in Hk; [lia|].
    cbn [str_take].
    change (String c (str_take k s) +:+ "...") with (String c (str_take k s +:+ "...")).
    cbn [String.length]. rewrite IH by lia. reflexivity. }
  rewrite !Hlen by lia. lia.
Qed.

Lemma truncate_text_longest_witness :
  exists k,
    k <= String.length "hello world"
    /\ truncate_text seven_wide "hello world" 60 = probe "hello world" k
    /\ (forall j, k < j -> j <= String.length "hello world" ->
                  (60 < seven_wide (probe "hello world" j))%Z)
    /\ ((seven_wide (probe "hello world" k) <= 60)%Z
        \/ (k = 0 /\ (60 < seven_wide (probe "hello world" 0))%Z)).
Proof.
  apply (truncate_text_longest seven_wide "hello world" 60).
  - apply seven_wide_monotone.
  - vm_compute. reflexivity.
Defined.

(** ** Finding the files and choosing one at start-up *)

Section FilesProperties.

Variable exists_ : string -> bool.
Variable walk : string -> list (string * list string).
Variable join : string -> string -> string.

Lemma find_in_files_spec (root : string) (files : list string) (p f : string) :
  In (p, f) (find_in_files join root files)
  <-> In f files /\ name_matches f = true /\ p = join root f.
Proof.
  unfold find_in_files. rewrite in_flat_map. split.
  - intros (file & Hin & H). destruct (name_matches file) eqn:Hm; [|destruct H].
    destruct H as [H|[]]. injection H as Hp Hf. subst file p.
    repeat split; assumption.
  - intros (Hin & Hm & ->). exists f. split; [exact Hin|]. rewrite Hm. left. reflexivity.
Qed.

(** X16.  [find_sol_files] returns exactly the pairs [(join root file, file)]
    for the files [os.walk] lists under a base path that exists, whose name
    ends with ".sol" and contains "ptd" in any letter case. *)
Theorem find_sol_files_spec (base_paths : list string) (p f : string) :
  In (p, f) (find_sol_files exists_ walk join base_paths)
  <-> exists base root files,
        In base base_paths /\ exists_ base = true /\ In (root, files) (walk base)
        /\ In f files /\ endswith ".sol" f = true /\ str_in "ptd" (lower f) = true
        /\ p = join root f.
Proof.
  unfold find_sol_files. rewrite in_flat_map. split.
  - intros (base & Hbase & H). unfold find_in_base in H.
    destruct (exists_ base) eqn:He; cbn [negb] in H; [|destruct H].
    apply in_flat_map in H as ([root files] & Hrf & H). cbn [fst snd] in H.
    apply find_in_files_spec in H as (Hf & Hm & ->).
    apply andb_true_iff in Hm as [Hm1 Hm2].
    exists base, root, files. repeat split; assumption.
  - intros (base & root & files & Hbase & He & Hrf & Hf & Hm1 & Hm2 & ->).
    exists base. split; [exact Hbase|]. unfold find_in_base. rewrite He. cbn [negb].
    apply in_flat_map. exists (root, files). split; [exact Hrf|]. cbn [fst snd].
    apply find_in_files_spec. repeat split; [exact Hf|].
    unfold name_matches. rewrite Hm1, Hm2. reflexivity.
Qed.

Lemma found_name_not_sol (base_paths : list string) (p f : string) :
  In (p, f) (find_sol_files exists_ walk join base_paths) -> f <> "sol".
Proof.
  unfold find_sol_files. intros H ->. apply in_flat_map in H as (base & _ & H).
  unfold find_in_base in H. destruct (negb (exists_ base)); [destruct H|].
  apply in_flat_map in H as ([root files] & _ & H).
  apply find_in_files_spec in H as (_ & Hm & _). discriminate.
Qed.

Lemma explicit_not_listed (base_paths : list string) (path : string) :
  existsb (token_eqb (path, "sol")) (find_sol_files exists_ walk join base_paths) = false.
Proof.
  destruct (existsb _ _) eqn:E; [|reflexivity]. exfalso.
  apply existsb_exists in E as ([p f] & Hin & Heq).
  apply token_eqb_eq in Heq. injection Heq as _ <-.
  exact (found_name_not_sol _ _ _ Hin eq_refl).
Qed.

(** X17.  No file [find_sol_files] returns is named "sol"; so at start-up
    the file "sol" of the current directory, when it exists, is always put in
    front of the list, selected and parsed, and when it does not exist
    nothing is selected or parsed. *)
Theorem startup_selects_explicit_sol (sol_base_paths : list string)
    (explicit_sol_file_path : string) :
  (exists_ explicit_sol_file_path = true ->
     startup exists_ walk join sol_base_paths explicit_sol_file_path
     = StartupState
         ((explicit_sol_file_path, "sol")
            :: find_sol_files exists_ walk join sol_base_paths)
         0 (Some explicit_sol_file_path))
  /\ (exists_ explicit_sol_file_path = false ->
        startup exists_ walk join sol_base_paths explicit_sol_file_path
        = StartupState (find_sol_files exists_ walk join sol_base_paths) (-1) None).
Proof.
  unfold startup. rewrite explicit_not_listed. split; intros ->; cbn [andb negb].
  - reflexivity.
  - destruct (find_sol_files exists_ walk join sol_base_paths) as [|[p f] l] eqn:E;
      [reflexivity|].
    destruct (String.eqb_spec f "sol") as [->|_]; [|reflexivity].
    exfalso. apply (found_name_not_sol sol_base_paths p "sol"); [|reflexivity].
    rewrite E. left. reflexivity.
Qed.

End FilesProperties.

Lemma startup_selects_explicit_sol_witness :
  startup ex_exists ex_walk ex_join ["/home/u/.macromedia/Flash_Player/"] "/work/sol"
  = StartupState
      (("/work/sol", "sol")
         :: find_sol_files ex_exists ex_walk ex_join ["/home/u/.macromedia/Flash_Player/"])
      0 (Some "/work/sol").
Proof.
  apply (proj1 (startup_selects_explicit_sol ex_exists ex_walk ex_join
                  ["/home/u/.macromedia/Flash_Player/"] "/work/sol")).
  reflexivity.
Defined.

(** ** Mouse presses on the file list *)

Section ViewerProperties.

Variable n_files : Z.

Ltac press_cases :=
  unfold mouse_button_down, SCREEN_HEIGHT, FILE_LIST_WIDTH, PADDING, LINE_HEIGHT, FONT_SIZE;
  cbv zeta;
  repeat match goal with
         | |- context [if ?c then _ else _] => destruct c eqn:?
         end;
  cbn [selected_index file_list_scroll_offset file_list_scrolling last_mouse_y
       parse_requests].

Lemma press_keeps_selection_valid (on_thumb : bool) (x y button : Z) (st : view_state) :
  selection_valid n_files st ->
  selection_valid n_files (mouse_button_down n_files on_thumb x y button st).
Proof.
  intros [Hsel Hreq]. unfold selection_valid.
  press_cases; (split; [|try exact Hreq]); try exact Hsel;
    try (right; lia); constructor; try exact Hreq; lia.
Qed.

(** X18.  Through any sequence of mouse presses the selection stays valid:
    the selected index is -1 or an index of the file list, and every index
    whose file is parsed is an index of the list. *)
Theorem presses_keep_selection_valid (ps : list press) (st : view_state) :
  selection_valid n_files st ->
  selection_valid n_files (presses n_files ps st).
Proof.
  unfold presses. revert st. induction ps as [|p ps IH]; intros st H; [exact H|].
  cbn [fold_left]. apply IH, press_keeps_selection_valid, H.
Qed.

Lemma press_few_files (on_thumb : bool) (x y button : Z) (st : view_state) :
  (n_files <= 14)%Z ->
  selected_index (mouse_button_down n_files on_thumb x y button st) = selected_index st
  /\ parse_requests (mouse_button_down n_files on_thumb x y button st) = parse_requests st
  /\ file_list_scrolling (mouse_button_down n_files on_thumb x y button st)
     = file_list_scrolling st.
Proof.
  intros Hn. press_cases; try (repeat split; reflexivity); lia.
Qed.

(** X19.  With at most fourteen files (a list no higher than the view) no
    sequence of mouse presses changes the selection, asks for a parse or
    grabs the scroll bar: the click on a file name is only handled when the
    list is higher than the view. *)
Theorem presses_few_files (ps : list press) (st : view_state) :
  (n_files <= 14)%Z ->
  selected_index (presses n_files ps st) = selected_index st
  /\ parse_requests (presses n_files ps st) = parse_requests st
  /\ file_list_scrolling (presses n_files ps st) = file_list_scrolling st.
Proof.
  intros Hn. unfold presses. revert st.
  induction ps as [|p ps IH]; intros st; [repeat split; reflexivity|].
  cbn [fold_left].
  destruct (IH (mouse_button_down n_files (press_on_thumb p) (press_x p) (press_y p)
                  (press_button p) st)) as (H1 & H2 & H3).
  destruct (press_few_files (press_on_thumb p) (press_x p) (press_y p) (press_button p) st Hn)
    as (G1 & G2 & G3).
  rewrite H1, H2, H3. repeat split; assumption.
Qed.

Lemma press_keeps_scroll_in_range (on_thumb : bool) (x y button : Z) (st : view_state) :
  scroll_in_range n_files st ->
  scroll_in_range n_files (mouse_button_down n_files on_thumb x y button st).
Proof.
  unfold scroll_in_range, SCREEN_HEIGHT, PADDING, LINE_HEIGHT, FONT_SIZE. intros H.
  press_cases; lia.
Qed.

(** X20.  Through any sequence of mouse presses (wheel up, wheel down,
    clicks) an integer scroll offset stays between 0 and
    [max(0, n_files * LINE_HEIGHT - view height)]. *)
Theorem presses_keep_scroll_in_range (ps : list press) (st : view_state) :
  scroll_in_range n_files st ->
  scroll_in_range n_files (presses n_files ps st).
Proof.
  unfold presses. revert st. induction ps as [|p ps IH]; intros st H; [exact H|].
  cbn [fold_left]. apply IH, press_keeps_scroll_in_range, H.
Qed.

End ViewerProperties.

Lemma presses_keep_selection_valid_witness :
  selection_valid 15
    (presses 15 [Press false 50 70 1; Press false 50 0 5; Press false 50 380 1]
       (ViewState (-1) 0 false 0 [])).
Proof.
  apply presses_keep_selection_valid. split; [left; reflexivity|constructor].
Defined.

Lemma presses_few_files_witness :
  selected_index (presses 14 [Press false 50 70 1; Press true 190 20 1]
                    (ViewState (-1) 0 false 0 [])) = (-1)%Z
  /\ parse_requests (presses 14 [Press false 50 70 1; Press true 190 20 1]
                       (ViewState (-1) 0 false 0 [])) = []
  /\ file_list_scrolling (presses 14 [Press false 50 70 1; Press true 190 20 1]
                            (ViewState (-1) 0 false 0 [])) = false.
Proof.
  apply (presses_few_files 14 [Press false 50 70 1; Press true 190 20 1]
           (ViewState (-1) 0 false 0 [])).
  lia.
Defined.

Lemma presses_keep_scroll_in_range_witness :
  scroll_in_range 30
    (presses 30 [Press false 50 70 5; Press false 50 70 5; Press false 50 70 4]
       (ViewState (-1) 0 false 0 [])).
Proof.
  apply presses_keep_scroll_in_range. unfold scroll_in_range. vm_compute.
  split; discriminate.
Defined.

Lemma find_sol_files_spec_witness :
  In ("/home/u/.macromedia/Flash_Player/a/PTD1.sol", "PTD1.sol")
     (find_sol_files ex_exists ex_walk ex_join ["/none"; "/home/u/.macromedia/Flash_Player/"]).
Proof.
  apply (proj2 (find_sol_files_spec ex_exists ex_walk ex_join
                  ["/none"; "/home/u/.macromedia/Flash_Player/"]
                  "/home/u/.macromedia/Flash_Player/a/PTD1.sol" "PTD1.sol")).
  exists "/home/u/.macromedia/Flash_Player/", "/home/u/.macromedia/Flash_Player/a",
         ["PTD1.sol"; "notes.txt"; "sol"].
  repeat split; try reflexivity; cbn; tauto.
Defined.

(** ** From the bytes to the password *)

Section EndToEnd.

Lemma tokens_spec_nonprintable (b : byte) (l : bytes) :
  printable b = false -> tokens_spec (b :: l) = byte_item b :: tokens_spec l.
Proof. intros Hb. unfold tokens_spec. cbn [scanner]. rewrite Hb. reflexivity. Qed.

Lemma tokens_spec_value_nul (v : bytes) :
  Forall (fun b => printable b = true) v -> 2 <= length v ->
  tokens_spec (v ++ [x00]) = [("String", string_of_list_byte v); ("Byte", "0x00")].
Proof.
  intros Hv Hlen. unfold tokens_spec.
  rewrite (scanner_cut [] v x00 [] eq_refl), (scanner_run [] v Hv). cbn [app].
  destruct v as [|x [|y v]]; cbn in Hlen; try lia. reflexivity.
Qed.

(** The items of a buffer that ends with a Password motif. *)
Lemma tokens_spec_password_motif (pre filler v : bytes) :
  ends_outside_run pre = true ->
  Forall (fun b => printable b = false) filler ->
  Forall (fun b => printable b = true) v -> 2 <= length v ->
  tokens_spec (pre ++ list_byte_of_string "Password" ++ [x06] ++ filler ++ v ++ [x00])
  = tokens_spec pre
    ++ ("String", "Password") :: ("Byte", "0x06")
       :: map byte_item filler ++ [("String", string_of_list_byte v); ("Byte", "0x00")].
Proof.
  intros Hpre Hf Hv Hlen.
  rewrite (tokens_spec_around_run pre (list_byte_of_string "Password")
             ([x06] ++ filler ++ v ++ [x00])); [|repeat constructor|exact Hpre|reflexivity].
  f_equal. change (flush (list_byte_of_string "Password")) with [("String", "Password")].
  cbn [app]. rewrite (tokens_spec_nonprintable x06) by reflexivity.
  change (byte_item x06) with ("Byte", "0x06"). do 2 f_equal.
  induction Hf as [|f filler Hfb _ IH]; cbn [app map].
  - apply tokens_spec_value_nul; assumption.
  - rewrite (tokens_spec_nonprintable f) by exact Hfb. f_equal. exact IH.
Qed.

(** X21.  When the truncated buffer ends with the bytes of "Password", the
    byte 0x06, at most one non-printable filler byte, a printable value of two
    or more bytes and the byte 0x00, and the label starts a printable run, the
    password extracted from a complete outcome is the cleaned text of that
    value. *)
Theorem password_from_bytes (fs : string -> exc bytes) (file_path : string)
    (data : bytes) (n : Z) (stop : nat -> bool) (o : outcome) (pre filler v : bytes) :
  fs file_path = Ret data ->
  _parse_sol_content_threaded fs file_path stop n = Ret [o] ->
  status_message o = "Complete" ->
  slice_to data n = pre ++ list_byte_of_string "Password" ++ [x06] ++ filler ++ v ++ [x00] ->
  ends_outside_run pre = true ->
  length filler <= 1 ->
  Forall (fun b => printable b = false) filler ->
  Forall (fun b => printable b = true) v ->
  2 <= length v ->
  extracted_password (parsed_data o)
  = sub_leading_nonword (clean_string (decode_utf8_ignore v)).
Proof.
  intros Hfs Hrun Hst Hsplit Hpre Hflen Hf Hv Hlen.
  rewrite (threaded_read _ _ _ _ _ Hfs) in Hrun. injection Hrun as <-.
  rewrite (scan_complete _ _ _ Hst), scan_never. cbn [parsed_data].
  rewrite Hsplit, (tokens_spec_password_motif pre filler v Hpre Hf Hv Hlen).
  rewrite (decode_printable v Hv).
  set (T := tokens_spec pre). set (sv := string_of_list_byte v).
  unfold extracted_password, extract_fields. rewrite extract_from_spec. cbn [snd].
  apply (keep_last_at _ _ (length T)).
  - rewrite length_app. cbn [length]. lia.
  - unfold candidate, motif_value. rewrite drop_app_length.
    destruct filler as [|f [|g filler]]; cbn in Hflen; [| |lia]; reflexivity.
  - intros j Hj. replace j with (length T + S (j - S (length T))) by lia.
    generalize (j - S (length T)) as d. intros d.
    unfold candidate, motif_value. rewrite drop_app_add.
    destruct filler as [|f [|g filler]]; cbn in Hflen; [| |lia]; cbn [map app drop].
    + do 3 (destruct d as [|d]; cbn [drop];
            [repeat match goal with
                    | |- context [token_eqb ?a ?b] => destruct (token_eqb a b)
                    end; reflexivity|]).
      rewrite drop_nil. reflexivity.
    + destruct d as [|d]; cbn [drop]; [reflexivity|].
      do 3 (destruct d as [|d]; cbn [drop];
            [repeat match goal with
                    | |- context [token_eqb ?a ?b] => destruct (token_eqb a b)
                    end; reflexivity|]).
      rewrite drop_nil. reflexivity.
Qed.

End EndToEnd.

Lemma password_from_bytes_witness :
  extracted_password (parsed_data (scan ex_password_file default_max_bytes never))
  = sub_leading_nonword (clean_string (decode_utf8_ignore (list_byte_of_string " hunter2"))).
Proof.
  apply (password_from_bytes (fun _ => Ret ex_password_file) "sol" ex_password_file
           default_max_bytes never (scan ex_password_file default_max_bytes never)
           [x00; x01] [x03] (list_byte_of_string " hunter2")); try reflexivity.
  all: try (cbn; lia).
  all: repeat constructor.
Defined.
